(** * aprsd: worker threads, RX/TX pipeline and statistics singleton

    A shallow embedding of [aprsd/threads.py] and [aprsd/stats/app.py].

    Python objects with identity are modelled by references (natural
    numbers) into explicit stores; code with side effects is written in a
    small state-and-exception monad over a [world] record, so that the
    state reached when an exception escapes is still observable, as it is
    in Python.  Calls into collaborators that live outside these two files
    (the APRS-IS client, the plugin manager, the logger, [time.sleep]) are
    recorded as [event]s of the world in program order; what a collaborator
    answers is an explicit argument of the operation that asks. *)

From Stdlib Require Import ZArith String List Lia.
From stdpp Require Import base option list strings gmap.

Local Open Scope Z_scope.
Local Open Scope string_scope.
Local Open Scope list_scope.
Local Open Scope stdpp_scope.

(** ** Python exceptions and results *)

(** The exceptions the two modules can see.  Every constructor stands for
    a subclass of Python's [Exception]; [except Exception] therefore
    catches all of them, [except queue.Empty] only the first. *)
Inductive exn : Type :=
| QueueEmpty                      (* queue.Empty *)
| ConnectionDrop                  (* aprslib.exceptions.ConnectionDrop *)
| ValueError                      (* list.remove(x): x not in list *)
| OtherError (what : string).     (* any other Exception subclass *)

#[global] Instance exn_eq_dec : EqDecision exn.
Proof. solve_decision. Defined.

Inductive result (A : Type) : Type :=
| Return (a : A)
| Raise (e : exn).
Arguments Return {A} a.
Arguments Raise {A} e.

(** ** Packets, replies and outbound messages *)

(** A decoded packet is a Python dict.  [packet["from"]] and
    [packet["raw"]] are read with subscription, the other keys with
    [.get], so the former are fields and the latter options. *)
Record packet : Type := Packet {
  pkt_from : string;                  (* packet["from"] *)
  pkt_raw : string;                   (* packet["raw"] *)
  pkt_addresse : option string;       (* packet.get("addresse", None) *)
  pkt_message_text : option string;   (* packet.get("message_text", None) *)
  pkt_msgNo : option string;          (* packet.get("msgNo") *)
  pkt_response : option string        (* packet.get("response", None) *)
}.

#[global] Instance packet_eq_dec : EqDecision packet.
Proof. solve_decision. Defined.

(** One element of what [PluginManager.run] returns: a list of texts, the
    [messaging.NULL_MESSAGE] flag, or one text. *)
Inductive reply : Type :=
| ReplyList (texts : list string)     (* isinstance(reply, list) *)
| NULL_MESSAGE                        (* reply is messaging.NULL_MESSAGE *)
| ReplyText (text : string).

(** The two kinds of outbound message [process_packet] constructs, with
    the constructor arguments of the source. *)
Inductive message : Type :=
| AckMessage (fromcall tocall : string) (msg_id : string)
| TextMessage (fromcall tocall : string) (text : string).

#[global] Instance message_eq_dec : EqDecision message.
Proof. solve_decision. Defined.

Definition is_ack_message (m : message) : bool :=
  match m with AckMessage _ _ _ => true | TextMessage _ _ _ => false end.

(** ** The world *)

Inductive log_level : Type := DEBUG | INFO | WARNING | ERROR | EXCEPTION.

(** Calls into collaborators, in program order.  For a log call the text
    is the literal part of the format string. *)
Inductive event : Type :=
| EvLog (level : log_level) (text : string)         (* LOG.<level>(text) *)
| EvLogMessage (header : string) (raw : string)     (* messaging.log_message *)
| EvSetFilter (filter_str : string)                 (* aprs_client.set_filter *)
| EvConsumer                                        (* aprs_client.consumer *)
| EvClientReset                                     (* client.Client().reset() *)
| EvSleep (seconds : Z)                             (* time.sleep *)
| EvPmRun (p : packet)                              (* PluginManager().run *)
| EvTxPut (m : message)                             (* msg_queues["tx"].put *)
| EvTxGet (timeout : Z)                             (* msg_queues["tx"].get *)
| EvSend (m : message)                              (* msg.send() *)
| EvPacketListAdd (p : packet).                     (* packets.PacketList().add *)

(** The mutable state the RX and TX workers touch.

    [msg_queues["tx"]] is a [queue.Queue(maxsize=20)]: [put] blocks while
    the queue is full and completes, without dropping or reordering, once
    the TX worker has taken an item.  The model records the completed
    [put]s in order as [EvTxPut] events; what [get] hands to the TX worker
    is an argument of its loop.

    [packets.PacketList()] lives in [aprsd.packets], which is not among
    the sources: the call of its [add] is an event, and what the list
    keeps of the packets it is given is no part of the world. *)
Record world : Type := World {
  events : list event;
  track : gmap string message;        (* messaging.MsgTrack() *)
  msgs_rx : nat;                      (* stats.APRSDStats().msgs_rx *)
  ack_rx : nat                        (* stats.APRSDStats().ack_rx *)
}.

Definition emit (e : event) (w : world) : world :=
  World (events w ++ [e]) (track w) (msgs_rx w) (ack_rx w).

Definition set_track (t : gmap string message) (w : world) : world :=
  World (events w) t (msgs_rx w) (ack_rx w).

Definition tx_puts (l : list event) : list message :=
  omap (λ e, match e with EvTxPut m => Some m | _ => None end) l.

Definition pm_calls (l : list event) : list packet :=
  omap (λ e, match e with EvPmRun p => Some p | _ => None end) l.

Definition sends (l : list event) : list message :=
  omap (λ e, match e with EvSend m => Some m | _ => None end) l.

(** The packets [packets.PacketList().add] was called with. *)
Definition packet_list_adds (l : list event) : list packet :=
  omap (λ e, match e with EvPacketListAdd p => Some p | _ => None end) l.

(** ** The monad: state plus exceptions *)

Definition M (A : Type) : Type := world → result A * world.

Definition ret {A} (a : A) : M A := λ w, (Return a, w).

Definition raise {A} (e : exn) : M A := λ w, (Raise e, w).

Definition bind {A B} (m : M A) (k : A → M B) : M B :=
  λ w, match m w with
       | (Return a, w') => k a w'
       | (Raise e, w') => (Raise e, w')
       end.

(** [try: body / except <catches>: handler]. *)
Definition try_except {A} (body : M A) (catches : exn → bool)
    (handler : exn → M A) : M A :=
  λ w, match body w with
       | (Return a, w') => (Return a, w')
       | (Raise e, w') => if catches e then handler e w' else (Raise e, w')
       end.

Declare Scope py_scope.
Delimit Scope py_scope with py.
Notation "'do' x <~ m 'in' k" := (bind m (λ x, k))
  (at level 10, x name, m at level 100, k at level 200) : py_scope.
Notation "m >> k" := (bind m (λ _, k))
  (at level 62, right associativity) : py_scope.
Local Open Scope py_scope.

Definition effect (f : world → world) : M unit := λ w, (Return tt, f w).

Definition log (level : log_level) (text : string) : M unit :=
  effect (emit (EvLog level text)).

Definition when (b : bool) (m : M unit) : M unit := if b then m else ret tt.

(** [except Exception] and [except queue.Empty]. *)
Definition any_Exception (e : exn) : bool := true.
Definition is_QueueEmpty (e : exn) : bool := bool_decide (e = QueueEmpty).
Definition is_ConnectionDrop (e : exn) : bool :=
  bool_decide (e = ConnectionDrop).

(** ** Collaborators outside the two source files *)

(** Modelled from the spec: [MsgTrack.remove] of [aprsd.messaging], a
    module that is not among the sources.  The tracker is a table from
    message id to outbound message; [remove] deletes the entry if it is
    present and does nothing for an absent id.  A packet without [msgNo]
    passes [None], which is no id of the table. *)
Definition MsgTrack_remove (msg_id : option string)
    (t : gmap string message) : gmap string message :=
  match msg_id with
  | Some i => delete i t
  | None => t
  end.

Definition tracker_remove (msg_id : option string) : M unit :=
  effect (λ w, set_track (MsgTrack_remove msg_id (track w)) w).

(** Modelled from the spec: the counters [msgs_rx_inc] and [ack_rx_inc]
    of the statistics object used by [threads.py] (the module
    [aprsd.stats] it imports is not among the sources); each adds one. *)
Definition msgs_rx_inc : M unit :=
  effect (λ w, World (events w) (track w) (S (msgs_rx w)) (ack_rx w)).

Definition ack_rx_inc : M unit :=
  effect (λ w, World (events w) (track w) (msgs_rx w) (S (ack_rx w))).

(** [packets.PacketList().add(packet)]: the call is recorded, nothing is
    said about what the packet list does with the packet. *)
Definition packet_list_add (p : packet) : M unit :=
  effect (emit (EvPacketListAdd p)).

Definition log_message (header : string) (p : packet) : M unit :=
  effect (emit (EvLogMessage header (pkt_raw p))).

Definition tx_put (m : message) : M unit := effect (emit (EvTxPut m)).

(** ** Configuration *)

(** [config["aprsd"]["watch_list"]]: both keys are read with [.get]. *)
Record watch_list_config : Type := WatchList {
  wl_enabled : option bool;             (* .get("enabled", False) *)
  wl_callsigns : option (list string)   (* .get("callsigns", []) *)
}.

Record config : Type := Config {
  aprs_login : string;                      (* config["aprs"]["login"] *)
  aprsd_watch_list : option watch_list_config
    (* "watch_list" in config["aprsd"] *)
}.

(** What one call of [aprs_client.consumer(callback, blocking=False)]
    does: it hands the packets that arrived to the callback, one after
    the other, and then returns or raises. *)
Record consumer_run : Type := ConsumerRun {
  delivered : list packet;
  ending : option exn
}.

(** ** APRSDRXThread *)

Module APRSDRXThread.
Section RX.

Variable cfg : config.
(** [PluginManager().run(packet)]: the results of the plugins in
    registration order, or the exception of the plugin that failed. *)
Variable pm : packet → result (list reply).

Definition login : string := aprs_login cfg.

Definition pm_run (p : packet) : M (list reply) :=
  λ w, (pm p, emit (EvPmRun p) w).

Definition usage : string :=
  "Usage: weather, locate [call], time, fortune, ping".

Definition plugin_failed : string := "A Plugin failed! try again?".

Definition process_ack_packet (packet : packet) : M unit :=
  let ack_num := pkt_msgNo packet in
  log INFO "Got ack for message" >>
  log_message "ACK" packet >>
  tracker_remove ack_num >>
  ack_rx_inc.

(** [for subreply in reply: ...] *)
Fixpoint put_subreplies (fromcall : string) (texts : list string)
    : M unit :=
  match texts with
  | [] => ret tt
  | subreply :: rest =>
      log DEBUG "Sending" >>
      tx_put (TextMessage login fromcall subreply) >>
      put_subreplies fromcall rest
  end.

(** [for reply in results: ...], threading the local [replied]. *)
Fixpoint put_replies (fromcall : string) (results : list reply)
    (replied : bool) : M bool :=
  match results with
  | [] => ret replied
  | ReplyList texts :: rest =>
      put_subreplies fromcall texts >>
      put_replies fromcall rest true
  | NULL_MESSAGE :: rest =>
      put_replies fromcall rest true
  | ReplyText text :: rest =>
      log DEBUG "Sending" >>
      tx_put (TextMessage login fromcall text) >>
      put_replies fromcall rest true
  end.

Definition process_packet (packet : packet) : M unit :=
  packet_list_add packet >>
  msgs_rx_inc >>
  let fromcall := pkt_from packet in
  let tocall := pkt_addresse packet in
  let msg_id := default "0" (pkt_msgNo packet) in
  let msg_response := pkt_response packet in
  log DEBUG "Got packet" >>
  (if bool_decide (tocall = Some login)
      && bool_decide (msg_response = Some "ack")
   then process_ack_packet packet
   else
     log_message "Received Message" packet >>
     when (bool_decide (tocall = Some login))
       (tx_put (AckMessage login fromcall msg_id)) >>
     try_except
       (do results <~ pm_run packet in
        log DEBUG "RESULTS" >>
        do replied <~ put_replies fromcall results false in
        when (bool_decide (tocall = Some login) && negb replied)
          (tx_put (TextMessage login fromcall usage)))
       any_Exception
       (λ ex,
        log EXCEPTION "Plugin failed!!!" >>
        when (bool_decide (tocall = Some login))
          (tx_put (TextMessage login fromcall plugin_failed)))) >>
  log DEBUG "Packet processing complete".

(** The consumer calls [process_packet] on each packet it received. *)
Fixpoint process_packets (ps : list packet) : M unit :=
  match ps with
  | [] => ret tt
  | p :: rest => process_packet p >> process_packets rest
  end.

Definition consumer (c : consumer_run) : M unit :=
  effect (emit EvConsumer) >>
  process_packets (delivered c) >>
  match ending c with
  | Some e => raise e
  | None => ret tt
  end.

Definition set_watch_list_filter : M unit :=
  match aprsd_watch_list cfg with
  | Some wl =>
      if default false (wl_enabled wl) then
        let watch_list := default [] (wl_callsigns wl) in
        match watch_list with
        | _ :: _ =>
            let filter_str := ("p/" ++ String.concat "/" watch_list)%string in
            effect (emit (EvSetFilter filter_str))
        | [] => log WARNING "Watch list enabled, but no callsigns set."
        end
      else ret tt
  | None => ret tt
  end.

Definition loop (c : consumer_run) : M bool :=
  set_watch_list_filter >>
  try_except
    (consumer c)
    is_ConnectionDrop
    (λ _,
     log ERROR "Connection dropped, reconnecting" >>
     effect (emit (EvSleep 5)) >>
     effect (emit EvClientReset)) >>
  ret true.

End RX.
End APRSDRXThread.

(** ** APRSDTXThread *)

Module APRSDTXThread.
Section TX.

(** [msg.send()], defined in [aprsd.messaging]: whatever it does to the
    world, it returns or raises. *)
Variable send : message → M unit.

(** [msg_queues["tx"].get(timeout=5)]: [got] is the item the queue
    hands over, [None] when the five seconds pass without one. *)
Definition tx_get (got : option message) : M message :=
  effect (emit (EvTxGet 5)) >>
  match got with
  | Some msg => ret msg
  | None => raise QueueEmpty
  end.

Definition msg_send (msg : message) : M unit :=
  effect (emit (EvSend msg)) >> send msg.

Definition loop (got : option message) : M bool :=
  try_except
    (do msg <~ tx_get got in msg_send msg)
    is_QueueEmpty
    (λ _, ret tt) >>
  ret true.

End TX.
End APRSDTXThread.

(** ** APRSDThreadList and APRSDThread *)

(** Thread objects have identity: a thread is a reference into the store
    of thread objects, and [==] on threads is identity of references. *)
Definition tid : Type := nat.

(** Where a thread is in [APRSDThread.run]. *)
Inductive pc : Type :=
| AtWhile                   (* about to test [while not self.thread_stop] *)
| InLoop                    (* inside [self.loop()] *)
| AfterLoop (can_loop : bool)   (* about to run [if not can_loop: self.stop()] *)
| AtRemove                  (* about to call [APRSDThreadList().remove(self)] *)
| Exited                    (* [run] returned *)
| Crashed (e : exn).        (* [run] was left by an exception *)

#[global] Instance pc_eq_dec : EqDecision pc.
Proof. solve_decision. Defined.

Record thread_obj : Type := ThreadObj {
  th_name : string;
  th_is_rx : bool;       (* APRSDRXThread overrides [stop] *)
  thread_stop : bool;
  th_pc : pc;
  th_loops : nat         (* how often [run] has invoked [self.loop()] *)
}.

(** The singleton [APRSDThreadList], the store of thread objects, and two
    spies: the sequence of [stop()] invocations and the number of
    [client.get_client().stop()] calls. *)
Record system : Type := System {
  threads_list : list tid;
  objects : list thread_obj;
  stop_log : list tid;
  client_stops : nat
}.

Definition init_system : system := System [] [] [] 0.

Definition set_obj (t : tid) (o : thread_obj) (s : system) : system :=
  System (threads_list s) (<[t := o]> (objects s)) (stop_log s)
    (client_stops s).

Definition pc_of (s : system) (t : tid) : option pc :=
  th_pc <$> objects s !! t.

Definition stopped (s : system) (t : tid) : option bool :=
  thread_stop <$> objects s !! t.

Definition loops_of (s : system) (t : tid) : nat :=
  from_option th_loops 0%nat (objects s !! t).

(** [self.thread_stop = True] *)
Definition set_thread_stop (o : thread_obj) : thread_obj :=
  ThreadObj (th_name o) (th_is_rx o) true (th_pc o) (th_loops o).

Definition set_th_pc (p : pc) (o : thread_obj) : thread_obj :=
  ThreadObj (th_name o) (th_is_rx o) (thread_stop o) p (th_loops o).

(** [run] calls [self.loop()]. *)
Definition enter_loop (o : thread_obj) : thread_obj :=
  ThreadObj (th_name o) (th_is_rx o) (thread_stop o) InLoop
    (S (th_loops o)).

(** [th.stop()]: [APRSDThread.stop] sets the flag; the override in
    [APRSDRXThread] also stops the client. *)
Definition stop (t : tid) (s : system) : system :=
  match objects s !! t with
  | Some o =>
      System (threads_list s)
        (<[t := set_thread_stop o]> (objects s))
        (stop_log s ++ [t])
        (if th_is_rx o then S (client_stops s) else client_stops s)
  | None => s
  end.

Module APRSDThreadList.

(** [self.threads_list.append(thread_obj)] *)
Definition add (t : tid) (s : system) : system :=
  System (threads_list s ++ [t]) (objects s) (stop_log s) (client_stops s).

(** Python's [list.remove(x)]: drops the first element equal to [x];
    [None] stands for the [ValueError] of an absent [x]. *)
Fixpoint list_remove (x : tid) (l : list tid) : option (list tid) :=
  match l with
  | [] => None
  | y :: l' =>
      if bool_decide (y = x) then Some l'
      else cons y <$> list_remove x l'
  end.

Definition remove (t : tid) (s : system) : option system :=
  (λ l, System l (objects s) (stop_log s) (client_stops s))
    <$> list_remove t (threads_list s).

(** [for th in self.threads_list: th.stop()] *)
Definition stop_all (s : system) : system :=
  foldl (λ acc th, stop th acc) s (threads_list s).

(** The [stop()] invocations made by one call of [stop_all]. *)
Definition stop_all_calls (s : system) : list tid :=
  drop (length (stop_log s)) (stop_log (stop_all s)).

End APRSDThreadList.

Module APRSDThread.

(** [__init__]: a new object with the flag unset, added to the list. *)
Definition init (name : string) (is_rx : bool) (s : system) : system :=
  let self := length (objects s) in
  APRSDThreadList.add self
    (System (threads_list s)
       (objects s ++ [ThreadObj name is_rx false AtWhile 0])
       (stop_log s) (client_stops s)).

(** One step of [run] in thread [t].  [out] is what [self.loop()] does
    when this step is its return.  The two [LOG.debug] calls of [run] are
    left out. *)
Definition run_step (t : tid) (out : result bool) (s : system) : system :=
  match objects s !! t with
  | None => s
  | Some o =>
      match th_pc o with
      | AtWhile =>
          if thread_stop o then set_obj t (set_th_pc AtRemove o) s
          else set_obj t (enter_loop o) s
      | InLoop =>
          match out with
          | Return can_loop => set_obj t (set_th_pc (AfterLoop can_loop) o) s
          | Raise e => set_obj t (set_th_pc (Crashed e) o) s
          end
      | AfterLoop can_loop =>
          let s' := if can_loop then s else stop t s in
          match objects s' !! t with
          | Some o' => set_obj t (set_th_pc AtWhile o') s'
          | None => s'
          end
      | AtRemove =>
          match APRSDThreadList.remove t s with
          | Some s' => set_obj t (set_th_pc Exited o) s'
          | None => set_obj t (set_th_pc (Crashed ValueError) o) s
          end
      | Exited => s
      | Crashed _ => s
      end
  end.

End APRSDThread.

(** What can happen to the thread system: a thread object is created, a
    thread runs its next step, somebody calls [stop] on a thread, or
    somebody calls [stop_all].  The registry's lock makes [add], [remove]
    and [stop_all] atomic with respect to each other. *)
Inductive action : Type :=
| ActInit (name : string) (is_rx : bool)
| ActStep (t : tid) (out : result bool)
| ActStop (t : tid)
| ActStopAll.

Definition step (a : action) (s : system) : system :=
  match a with
  | ActInit name is_rx => APRSDThread.init name is_rx s
  | ActStep t out => APRSDThread.run_step t out s
  | ActStop t => stop t s
  | ActStopAll => APRSDThreadList.stop_all s
  end.

Definition exec (sched : list action) (s : system) : system :=
  foldl (λ acc a, step a acc) s sched.

Definition is_step_of (t : tid) (a : action) : bool :=
  match a with
  | ActStep t' _ => bool_decide (t' = t)
  | _ => false
  end.


(** ** APRSDStats *)

Module APRSDStats.

(** An instance of the class; [start_time] exists once [__init__] has
    run.  Times are microseconds on the clock of [datetime.now()]. *)
Record stats_obj : Type := StatsObj { start_time : option Z }.

(** The class attribute [_instance] and the store of instances. *)
Record cls : Type := Cls {
  _instance : option nat;
  instances : list stats_obj
}.

Definition initial : cls := Cls None [].

(** [__new__]: an object is truthy, so [not cls._instance] holds
    exactly when the attribute is [None]. *)
Definition new (c : cls) : nat * cls :=
  match _instance c with
  | None =>
      let self := length (instances c) in
      (self, Cls (Some self) (instances c ++ [StatsObj None]))
  | Some self => (self, c)
  end.

(** [__init__], with [now] the value of [datetime.datetime.now()]. *)
Definition init (self : nat) (now : Z) (c : cls) : cls :=
  Cls (_instance c) (<[self := StatsObj (Some now)]> (instances c)).

(** The call [APRSDStats()]: [__new__], then [__init__] on its result. *)
Definition construct (now : Z) (c : cls) : nat * cls :=
  let '(self, c') := new c in (self, init self now c').

(** Successive calls [APRSDStats()] at the given times. *)
Fixpoint constructs (times : list Z) (c : cls) : list nat * cls :=
  match times with
  | [] => ([], c)
  | now :: rest =>
      let '(self, c') := construct now c in
      let '(selves, c'') := constructs rest c' in
      (self :: selves, c'')
  end.

(** [uptime()]: [None] stands for the [AttributeError] of an object
    that has no [start_time]. *)
Definition uptime (self : nat) (now : Z) (c : cls) : option Z :=
  match instances c !! self with
  | Some o => (λ t, now - t) <$> start_time o
  | None => None
  end.

Inductive uptime_value : Type :=
| UptimeDelta (d : Z)
| UptimeStr (text : string).

Record stats_dict : Type := StatsDict {
  st_version : string;
  st_uptime : uptime_value;
  st_callsign : string;
  st_memory_current : Z;
  st_memory_current_str : string;
  st_memory_peak : Z;
  st_memory_peak_str : string
}.

Section Stats.

(** [aprsd.__version__], [CONF.callsign], [str] on a timedelta and
    [utils.human_size] are defined outside the two source files. *)
Variables (version callsign : string).
Variable str_timedelta : Z → string.
Variable human_size : Z → string.

(** [stats(serializable)], with [current] and [peak] the answer of
    [tracemalloc.get_traced_memory()]. *)
Definition stats (self : nat) (serializable : bool) (now : Z)
    (current peak : Z) (c : cls) : option stats_dict :=
  match uptime self now c with
  | Some up =>
      let up' := if serializable then UptimeStr (str_timedelta up)
                 else UptimeDelta up in
      Some (StatsDict version up' callsign current (human_size current)
              peak (human_size peak))
  | None => None
  end.

End Stats.

End APRSDStats.

(** ** Derived notions used in the statements *)

(** The world after the events [l] have been appended. *)
Definition emits (l : list event) (w : world) : world :=
  World (events w ++ l) (track w) (msgs_rx w) (ack_rx w).

(** The events a world gained with respect to an earlier one. *)
Definition new_events (w w' : world) : list event :=
  drop (length (events w)) (events w').

Section RXNotions.

Variable cfg : config.
Variable pm : packet → result (list reply).

Definition addressed_to_us (p : packet) : bool :=
  bool_decide (pkt_addresse p = Some (aprs_login cfg)).

Definition ack_marked (p : packet) : bool :=
  bool_decide (pkt_response p = Some "ack").

(** The texts a result sequence asks to send, in order. *)
Definition reply_texts (results : list reply) : list string :=
  concat (map (λ r, match r with
                    | ReplyList texts => texts
                    | NULL_MESSAGE => []
                    | ReplyText text => [text]
                    end) results).

Definition text_events (fromcall : string) (texts : list string)
    : list event :=
  concat (map (λ t, [EvLog DEBUG "Sending";
                     EvTxPut (TextMessage (aprs_login cfg) fromcall t)])
            texts).

Definition ack_for (p : packet) : message :=
  AckMessage (aprs_login cfg) (pkt_from p) (default "0" (pkt_msgNo p)).

Definition usage_for (p : packet) : message :=
  TextMessage (aprs_login cfg) (pkt_from p) APRSDRXThread.usage.

Definition error_notice_for (p : packet) : message :=
  TextMessage (aprs_login cfg) (pkt_from p) APRSDRXThread.plugin_failed.

Definition is_usage (m : message) : bool :=
  match m with
  | TextMessage _ _ text => bool_decide (text = APRSDRXThread.usage)
  | AckMessage _ _ _ => false
  end.

Definition is_error_notice (m : message) : bool :=
  match m with
  | TextMessage _ _ text => bool_decide (text = APRSDRXThread.plugin_failed)
  | AckMessage _ _ _ => false
  end.

(** The events of one call of [process_packet], written out by case. *)
Definition dispatch_events (p : packet) : list event :=
  [EvPmRun p] ++
  match pm p with
  | Return results =>
      [EvLog DEBUG "RESULTS"] ++
      text_events (pkt_from p) (reply_texts results) ++
      (if addressed_to_us p && bool_decide (results = [])
       then [EvTxPut (usage_for p)] else [])
  | Raise _ =>
      [EvLog EXCEPTION "Plugin failed!!!"] ++
      (if addressed_to_us p then [EvTxPut (error_notice_for p)] else [])
  end.

Definition packet_events (p : packet) : list event :=
  [EvPacketListAdd p; EvLog DEBUG "Got packet"] ++
  (if addressed_to_us p && ack_marked p
   then [EvLog INFO "Got ack for message"; EvLogMessage "ACK" (pkt_raw p)]
   else [EvLogMessage "Received Message" (pkt_raw p)] ++
        (if addressed_to_us p then [EvTxPut (ack_for p)] else []) ++
        dispatch_events p) ++
  [EvLog DEBUG "Packet processing complete"].

Definition packet_world (p : packet) (w : world) : world :=
  let is_ack := addressed_to_us p && ack_marked p in
  World (events w ++ packet_events p)
    (if is_ack then MsgTrack_remove (pkt_msgNo p) (track w) else track w)
    (S (msgs_rx w))
    (if is_ack then S (ack_rx w) else ack_rx w).

Fixpoint packets_world (ps : list packet) (w : world) : world :=
  match ps with
  | [] => w
  | p :: rest => packets_world rest (packet_world p w)
  end.

End RXNotions.

(** What [loop] does before it calls the consumer. *)
Definition watch_list_events (cfg : config) : list event :=
  match aprsd_watch_list cfg with
  | Some wl =>
      if default false (wl_enabled wl) then
        match default [] (wl_callsigns wl) with
        | [] => [EvLog WARNING "Watch list enabled, but no callsigns set."]
        | c :: cs =>
            [EvSetFilter ("p/" ++ String.concat "/" (c :: cs))%string]
        end
      else []
  | None => []
  end.

Definition reconnect_events : list event :=
  [EvLog ERROR "Connection dropped, reconnecting"; EvSleep 5; EvClientReset].

(** The kinds of event [process_packet] can cause. *)
Definition packet_event (e : event) : bool :=
  match e with
  | EvLog _ _ | EvLogMessage _ _ | EvPmRun _ | EvTxPut _
  | EvPacketListAdd _ => true
  | _ => false
  end.

(** The registry holds no thread twice, and holds exactly the threads
    that have been created and whose [run] has not returned. *)
Definition registry_inv (s : system) : Prop :=
  NoDup (threads_list s)
  ∧ ∀ t, t ∈ threads_list s
         ↔ ∃ o, objects s !! t = Some o ∧ th_pc o ≠ Exited.


(** ** Concrete inputs *)

Module Demo.

Definition cfg : config := Config "MYCALL" None.

Definition cfg_watch : config :=
  Config "MYCALL" (Some (WatchList (Some true) (Some ["A"; "B"]))).

Definition cfg_watch_empty : config :=
  Config "MYCALL" (Some (WatchList (Some true) None)).

Definition w0 : world := World [] ∅ 0 0.

Definition tracked : world :=
  World [] (<["7" := TextMessage "MYCALL" "N0CALL" "PONG"]>
              (<["8" := TextMessage "MYCALL" "K1ABC" "72F"]> ∅)) 0 0.

Definition ping : packet :=
  Packet "N0CALL" "N0CALL>APRS::MYCALL   :ping{5" (Some "MYCALL")
    (Some "ping") (Some "5") None.

Definition ack7 : packet :=
  Packet "N0CALL" "N0CALL>APRS::MYCALL   :ack7" (Some "MYCALL")
    None (Some "7") (Some "ack").

Definition other : packet :=
  Packet "N0CALL" "N0CALL>APRS::K1ABC    :hello{3" (Some "K1ABC")
    (Some "hello") (Some "3") None.

Definition from_C : packet :=
  Packet "C" "C>APRS::MYCALL   :ping{1" (Some "MYCALL")
    (Some "ping") (Some "1") None.

Definition pm_none : packet → result (list reply) := λ _, Return [].

Definition pm_null : packet → result (list reply) :=
  λ _, Return [NULL_MESSAGE].

Definition pm_pong : packet → result (list reply) :=
  λ _, Return [ReplyText "PONG"].

Definition pm_fails : packet → result (list reply) :=
  λ _, Raise (OtherError "plugin").

Definition two_threads : list action :=
  [ActInit "RX_MSG" true; ActInit "TX_MSG" false].

(** The TX thread enters its loop, which returns false. *)
Definition tx_returns_false : list action :=
  two_threads
  ++ [ActStep 1%nat (Return true); ActStep 1%nat (Return false)].

Definition send_ok : message → M unit := λ _, ret tt.

Definition send_fails : message → M unit :=
  λ _, raise (OtherError "send").

End Demo.

(** ** Repeated iterations and the keep-alive thread *)

Definition msg_fromcall (m : message) : string :=
  match m with
  | AckMessage f _ _ => f
  | TextMessage f _ _ => f
  end.

Definition msg_tocall (m : message) : string :=
  match m with
  | AckMessage _ t _ => t
  | TextMessage _ t _ => t
  end.

(** What [APRSDThread.run] does in the RX thread while nobody sets the
    stop flag: [can_loop = self.loop()] again and again, each call of the
    consumer with its own outcome; a false [can_loop] ends the [while]. *)
Fixpoint rx_run (cfg : config) (pm : packet → result (list reply))
    (cs : list consumer_run) : M unit :=
  match cs with
  | [] => ret tt
  | c :: rest =>
      do can_loop <~ APRSDRXThread.loop cfg pm c in
      if can_loop then rx_run cfg pm rest else ret tt
  end.

(** The same for the TX thread, each [get] with its own outcome. *)
Fixpoint tx_run (send : message → M unit) (gots : list (option message))
    : M unit :=
  match gots with
  | [] => ret tt
  | got :: rest =>
      do can_loop <~ APRSDTXThread.loop send got in
      if can_loop then tx_run send rest else ret tt
  end.

(** The consumer outcomes [loop] recovers from or returns from. *)
Definition recoverable (c : consumer_run) : bool :=
  match ending c with
  | None => true
  | Some e => is_ConnectionDrop e
  end.

Definition dropped (c : consumer_run) : bool :=
  match ending c with
  | Some e => is_ConnectionDrop e
  | None => false
  end.

Definition resets (l : list event) : nat :=
  length (omap (λ e, match e with EvClientReset => Some tt | _ => None end) l).

Definition slept (l : list event) : Z :=
  foldr (λ e acc, match e with EvSleep s => s + acc | _ => acc end) 0 l.

Definition filters (l : list event) : list string :=
  omap (λ e, match e with EvSetFilter f => Some f | _ => None end) l.

(** The events of one call of [APRSDRXThread.loop]. *)
Definition loop_events (cfg : config) (pm : packet → result (list reply))
    (c : consumer_run) : list event :=
  watch_list_events cfg ++ [EvConsumer]
  ++ concat (map (packet_events cfg pm) (delivered c))
  ++ (if dropped c then reconnect_events else []).


Definition is_rx_thread (s : system) (t : tid) : bool :=
  from_option th_is_rx false (objects s !! t).

Module KeepAliveThread.

Inductive ka_event : Type :=
| KaSetMemory (current : Z)             (* stats_obj.set_memory *)
| KaSetMemoryPeak (peak : Z)            (* stats_obj.set_memory_peak *)
| KaLog (level : log_level) (text : string)
| KaCheckVersion (now : Z)              (* utils._check_version() *)
| KaSleep (seconds : Z).                (* time.sleep *)

(** The attributes [cntr] and [checker_time] of the thread, and the calls
    it has made.  Times are microseconds, as for [APRSDStats]. *)
Record ka_state : Type := KaState {
  cntr : nat;
  checker_time : Z;
  ka_events : list ka_event
}.

(** What the collaborators answer in one call of [loop]: the clock, the
    traced memory, the formatted keep-alive line (built with helpers of
    [aprsd.utils] from the tracker, the statistics and the packet list)
    and [utils._check_version()]. *)
Record ka_env : Type := KaEnv {
  env_now : Z;                          (* datetime.datetime.now() *)
  env_traced_memory : Z * Z;            (* tracemalloc.get_traced_memory() *)
  env_keepalive : string;
  env_check_version : Z * string        (* level, msg *)
}.

(** [datetime.timedelta(hours=1)] *)
Definition one_hour : Z := 3600000000.

Definition ka_emit (l : list ka_event) (st : ka_state) : ka_state :=
  KaState (cntr st) (checker_time st) (ka_events st ++ l).

Definition loop (env : ka_env) (st : ka_state) : bool * ka_state :=
  let st1 :=
    if (cntr st mod 6 =? 0)%nat then
      let now := env_now env in
      let '(current, peak) := env_traced_memory env in
      let st_a :=
        ka_emit [KaSetMemory current; KaSetMemoryPeak peak;
                 KaLog DEBUG (env_keepalive env)] st in
      let delta := now - checker_time st_a in
      if (one_hour <? delta)%Z then
        let st_b :=
          ka_emit [KaCheckVersion now]
            (KaState (cntr st_a) now (ka_events st_a)) in
        let '(level, msg) := env_check_version env in
        if negb (level =? 0)%Z then ka_emit [KaLog WARNING msg] st_b
        else st_b
      else st_a
    else st in
  (true,
   ka_emit [KaSleep 10]
     (KaState (S (cntr st1)) (checker_time st1) (ka_events st1))).

(** Successive calls of [loop] by [run], one per answer of the
    collaborators. *)
Fixpoint loops (envs : list ka_env) (st : ka_state) : ka_state :=
  match envs with
  | [] => st
  | env :: rest =>
      let '(can_loop, st') := loop env st in
      if can_loop then loops rest st' else st'
  end.

Definition keepalive_lines (l : list ka_event) : list string :=
  omap (λ e, match e with KaLog DEBUG text => Some text | _ => None end) l.

Definition check_times (l : list ka_event) : list Z :=
  omap (λ e, match e with KaCheckVersion now => Some now | _ => None end) l.

Definition sleeps (l : list ka_event) : list Z :=
  omap (λ e, match e with KaSleep s => Some s | _ => None end) l.

(** Each time of the list is more than an hour after the one before it,
    the first more than an hour after [t0]. *)
Fixpoint hour_apart (t0 : Z) (ts : list Z) : Prop :=
  match ts with
  | [] => True
  | t :: rest => (one_hour < t - t0)%Z ∧ hour_apart t rest
  end.

(** The answers of the iterations on which the counter is a multiple of
    six, for a counter that starts at [c]. *)
Fixpoint every_sixth (c : nat) (envs : list ka_env) : list ka_env :=
  match envs with
  | [] => []
  | env :: rest =>
      (if (c mod 6 =? 0)%nat then [env] else []) ++ every_sixth (S c) rest
  end.

Definition ka_new_events (st st' : ka_state) : list ka_event :=
  drop (length (ka_events st)) (ka_events st').

(** The calls that make up one keep-alive report, and the report of an
    iteration: [set_memory], [set_memory_peak] and the logged line, in the
    order of the source. *)
Definition is_report (e : ka_event) : bool :=
  match e with
  | KaSetMemory _ | KaSetMemoryPeak _ | KaLog DEBUG _ => true
  | _ => false
  end.

Definition reports (l : list ka_event) : list ka_event :=
  filter (λ e, is_report e = true) l.

Definition report_of (env : ka_env) : list ka_event :=
  [KaSetMemory (fst (env_traced_memory env));
   KaSetMemoryPeak (snd (env_traced_memory env));
   KaLog DEBUG (env_keepalive env)].

End KeepAliveThread.

Module Runs.

Definition drop_then_ping : list consumer_run :=
  [ConsumerRun [Demo.ping] (Some ConnectionDrop);
   ConsumerRun [Demo.other; Demo.ack7] None].

Definition env_at (now : Z) : KeepAliveThread.ka_env :=
  KeepAliveThread.KaEnv now (1024, 2048) "Uptime" (1, "new version").

Definition fresh_keepalive : KeepAliveThread.ka_state :=
  KeepAliveThread.KaState 0 0 [].

Definition ack_for_other : packet :=
  Packet "N0CALL" "N0CALL>APRS::K1ABC    :ack7" (Some "K1ABC")
    None (Some "7") (Some "ack").


End Runs.

(** * Theorems *)

(** ** The monad *)

Lemma emit_emits e l w : emit e (emits l w) = emits (l ++ [e]) w.
Proof. unfold emit, emits; simpl. by rewrite <- app_assoc. Qed.

Lemma emits_emits l1 l2 w : emits l2 (emits l1 w) = emits (l1 ++ l2) w.
Proof. unfold emits; simpl. by rewrite <- app_assoc. Qed.

Lemma emit_as_emits e w : emit e w = emits [e] w.
Proof. reflexivity. Qed.

Lemma emits_nil w : emits [] w = w.
Proof. destruct w; unfold emits; simpl. by rewrite app_nil_r. Qed.

Lemma new_events_emits l w : new_events w (emits l w) = l.
Proof. unfold new_events, emits; simpl. by rewrite drop_app_length. Qed.

Lemma tx_puts_app l1 l2 : tx_puts (l1 ++ l2) = tx_puts l1 ++ tx_puts l2.
Proof. apply omap_app. Qed.

Lemma pm_calls_app l1 l2 : pm_calls (l1 ++ l2) = pm_calls l1 ++ pm_calls l2.
Proof. apply omap_app. Qed.

Ltac flat_events := repeat (progress (simpl; rewrite <- ?app_assoc)).

(** Runs the monadic glue, leaving calls of recursive operations alone. *)
Ltac run_m :=
  cbv beta iota delta
    [bind ret raise try_except effect when log log_message tx_put
     tracker_remove ack_rx_inc msgs_rx_inc packet_list_add emit set_track
     events track msgs_rx ack_rx fst snd].

Section RXFacts.

Variable cfg : config.
Variable pm : packet → result (list reply).

Lemma put_subreplies_run fromcall texts w :
  APRSDRXThread.put_subreplies cfg fromcall texts w
  = (Return tt, emits (text_events cfg fromcall texts) w).
Proof.
  revert w. induction texts as [|t texts IH]; intros w.
  - simpl. by rewrite emits_nil.
  - cbn [APRSDRXThread.put_subreplies]. unfold bind at 1 2. simpl.
    rewrite IH. unfold tx_put, log, effect. simpl.
    rewrite !emit_as_emits, !emits_emits. reflexivity.
Qed.

Lemma text_events_app fromcall l1 l2 :
  text_events cfg fromcall (l1 ++ l2)
  = text_events cfg fromcall l1 ++ text_events cfg fromcall l2.
Proof. unfold text_events. by rewrite map_app, concat_app. Qed.

Lemma put_replies_run fromcall results replied w :
  APRSDRXThread.put_replies cfg fromcall results replied w
  = (Return (replied || negb (bool_decide (results = []))),
     emits (text_events cfg fromcall (reply_texts results)) w).
Proof.
  revert replied w.
  induction results as [|r results IH]; intros replied w.
  - simpl. rewrite emits_nil. by rewrite orb_false_r.
  - assert (Hne : bool_decide (r :: results = []) = false)
      by (by apply bool_decide_eq_false).
    rewrite Hne. simpl negb. rewrite orb_true_r.
    destruct r as [texts| |text]; cbn [APRSDRXThread.put_replies].
    + unfold bind. rewrite put_subreplies_run, IH. simpl.
      rewrite emits_emits. unfold reply_texts. simpl.
      by rewrite text_events_app.
    + rewrite IH. simpl. reflexivity.
    + unfold bind at 1 2. unfold log, tx_put, effect. rewrite IH. simpl.
      rewrite !emit_as_emits, !emits_emits. reflexivity.
Qed.

Lemma process_packet_run p w :
  APRSDRXThread.process_packet cfg pm p w
  = (Return tt, packet_world cfg pm p w).
Proof.
  unfold APRSDRXThread.process_packet, packet_world, packet_events,
    dispatch_events, addressed_to_us, ack_marked, APRSDRXThread.login.
  destruct (bool_decide (pkt_addresse p = Some (aprs_login cfg)));
    destruct (bool_decide (pkt_response p = Some "ack")); cbn [andb].
  all: try (unfold APRSDRXThread.process_ack_packet; run_m;
            flat_events; reflexivity).
  all: unfold APRSDRXThread.pm_run; run_m;
    destruct (pm p) as [results|e]; run_m; cbn [any_Exception].
  all: try (rewrite put_replies_run; run_m; cbn [orb negb];
            destruct (bool_decide (results = [])); cbn [negb andb];
            run_m; unfold emits; flat_events; reflexivity).
  all: flat_events; reflexivity.
Qed.

Lemma process_packets_run ps w :
  APRSDRXThread.process_packets cfg pm ps w
  = (Return tt, packets_world cfg pm ps w).
Proof.
  revert w. induction ps as [|p ps IH]; intros w; [done|].
  cbn [APRSDRXThread.process_packets packets_world]. unfold bind.
  by rewrite process_packet_run, IH.
Qed.

Lemma tx_puts_text_events fromcall texts :
  tx_puts (text_events cfg fromcall texts)
  = map (TextMessage (aprs_login cfg) fromcall) texts.
Proof. induction texts as [|t texts IH]; [done|]. simpl. by f_equal. Qed.

Lemma pm_calls_text_events fromcall texts :
  pm_calls (text_events cfg fromcall texts) = [].
Proof. induction texts as [|t texts IH]; [done|]. by simpl. Qed.

(** The outbound messages one packet puts on the tx queue. *)
Lemma tx_puts_packet_events p :
  tx_puts (packet_events cfg pm p)
  = if addressed_to_us cfg p && ack_marked p then []
    else (if addressed_to_us cfg p then [ack_for cfg p] else []) ++
         match pm p with
         | Return results =>
             map (TextMessage (aprs_login cfg) (pkt_from p))
               (reply_texts results) ++
             (if addressed_to_us cfg p && bool_decide (results = [])
              then [usage_for cfg p] else [])
         | Raise _ =>
             if addressed_to_us cfg p then [error_notice_for cfg p] else []
         end.
Proof.
  unfold packet_events, dispatch_events.
  destruct (addressed_to_us cfg p), (ack_marked p); cbn [andb];
    try reflexivity.
  all: destruct (pm p) as [results|e];
    rewrite ?tx_puts_app, ?tx_puts_text_events;
    try destruct (bool_decide (results = []));
    simpl; rewrite ?app_nil_r; reflexivity.
Qed.

(** The packets one call of [process_packet] hands to the plugins. *)
Lemma pm_calls_packet_events p :
  pm_calls (packet_events cfg pm p)
  = if addressed_to_us cfg p && ack_marked p then [] else [p].
Proof.
  unfold packet_events, dispatch_events.
  destruct (addressed_to_us cfg p), (ack_marked p); cbn [andb];
    try reflexivity.
  all: destruct (pm p) as [results|e];
    rewrite ?pm_calls_app, ?pm_calls_text_events;
    try destruct (bool_decide (results = []));
    simpl; reflexivity.
Qed.

Lemma events_packets_world ps w :
  events (packets_world cfg pm ps w)
  = events w ++ concat (map (packet_events cfg pm) ps).
Proof.
  revert w. induction ps as [|p ps IH]; intros w; simpl.
  - by rewrite app_nil_r.
  - rewrite IH. simpl. by rewrite <- app_assoc.
Qed.

Lemma track_packets_world_content ps w :
  Forall (λ p, addressed_to_us cfg p && ack_marked p = false) ps →
  track (packets_world cfg pm ps w) = track w.
Proof.
  intros H. revert w. induction H as [|p ps Hp _ IH]; intros w; [done|].
  simpl. rewrite IH. simpl. by rewrite Hp.
Qed.

Lemma new_events_app w w' l :
  events w' = events w ++ l → new_events w w' = l.
Proof. intros H. unfold new_events. rewrite H. by rewrite drop_app_length. Qed.

Lemma new_events_packet_world p w :
  new_events w (packet_world cfg pm p w) = packet_events cfg pm p.
Proof. by apply new_events_app. Qed.

End RXFacts.

(** ** Acknowledgements received *)

(** C4.  A packet addressed to the daemon's own callsign whose response
    marker is "ack" is handled without failure; the tracker entry of the
    packet's message id is removed and every other entry is untouched, an
    id that is not tracked leaves the tracker as it was, the received-ack
    counter grows by one, the plugin manager is not invoked and nothing is
    put on the tx queue. *)
Theorem ack_packet_removes_only_its_entry
    (cfg : config) (pm : packet → result (list reply)) (p : packet)
    (w : world) :
  pkt_addresse p = Some (aprs_login cfg) →
  pkt_response p = Some "ack" →
  ∃ w', APRSDRXThread.process_packet cfg pm p w = (Return tt, w')
    ∧ track w' = MsgTrack_remove (pkt_msgNo p) (track w)
    ∧ (∀ i, pkt_msgNo p = Some i →
         track w' !! i = None
         ∧ (∀ j, j ≠ i → track w' !! j = track w !! j)
         ∧ (track w !! i = None → track w' = track w))
    ∧ (pkt_msgNo p = None → track w' = track w)
    ∧ ack_rx w' = S (ack_rx w)
    ∧ pm_calls (new_events w w') = []
    ∧ tx_puts (new_events w w') = [].
Proof.
  intros Hto Hack. exists (packet_world cfg pm p w).
  assert (Hus : addressed_to_us cfg p && ack_marked p = true).
  { unfold addressed_to_us, ack_marked.
    by rewrite !bool_decide_eq_true_2. }
  split; [apply process_packet_run|].
  rewrite new_events_packet_world, pm_calls_packet_events,
    tx_puts_packet_events, Hus.
  unfold packet_world. rewrite Hus. simpl.
  split; [done|]. split; [|split; [|done]].
  - intros i Hi. rewrite Hi. simpl. split; [|split].
    + apply lookup_delete_eq.
    + intros j Hj. by apply lookup_delete_ne.
    + intros Hnone. by apply delete_id.
  - intros Hi. by rewrite Hi.
Qed.

Lemma ack_packet_removes_only_its_entry_witness :
  ∃ w', APRSDRXThread.process_packet Demo.cfg Demo.pm_pong Demo.ack7
          Demo.tracked = (Return tt, w')
    ∧ track w' = MsgTrack_remove (Some "7") (track Demo.tracked)
    ∧ (∀ i, Some "7" = Some i →
         track w' !! i = None
         ∧ (∀ j, j ≠ i → track w' !! j = track Demo.tracked !! j)
         ∧ (track Demo.tracked !! i = None → track w' = track Demo.tracked))
    ∧ (Some "7" = None → track w' = track Demo.tracked)
    ∧ ack_rx w' = S (ack_rx Demo.tracked)
    ∧ pm_calls (new_events Demo.tracked w') = []
    ∧ tx_puts (new_events Demo.tracked w') = [].
Proof.
  apply (ack_packet_removes_only_its_entry Demo.cfg Demo.pm_pong Demo.ack7
           Demo.tracked); reflexivity.
Defined.

(** ** Content packets addressed to the daemon *)

Lemma not_ack_marked p : pkt_response p ≠ Some "ack" → ack_marked p = false.
Proof. intros H. unfold ack_marked. by apply bool_decide_eq_false. Qed.

Lemma is_addressed_to_us cfg p :
  pkt_addresse p = Some (aprs_login cfg) → addressed_to_us cfg p = true.
Proof. intros H. unfold addressed_to_us. by apply bool_decide_eq_true. Qed.

Lemma not_addressed_to_us cfg p :
  pkt_addresse p ≠ Some (aprs_login cfg) → addressed_to_us cfg p = false.
Proof. intros H. unfold addressed_to_us. by apply bool_decide_eq_false. Qed.

(** C5.  For a packet addressed to the daemon's own callsign that is not
    marked "ack", the first message put on the tx queue is an ack from the
    daemon to the packet's sender carrying the packet's message id ("0"
    when the packet has none); whatever the plugins make the worker send
    comes after it and is never an ack; and the tracker is left as it
    was, so the ack is not tracked. *)
Theorem content_packet_is_acked_first
    (cfg : config) (pm : packet → result (list reply)) (p : packet)
    (w : world) :
  pkt_addresse p = Some (aprs_login cfg) →
  pkt_response p ≠ Some "ack" →
  ∃ w' later,
    APRSDRXThread.process_packet cfg pm p w = (Return tt, w')
    ∧ tx_puts (new_events w w')
      = AckMessage (aprs_login cfg) (pkt_from p) (default "0" (pkt_msgNo p))
        :: later
    ∧ (∀ i, pkt_msgNo p = Some i →
         head (tx_puts (new_events w w'))
         = Some (AckMessage (aprs_login cfg) (pkt_from p) i))
    ∧ later
      = match pm p with
        | Return results =>
            map (TextMessage (aprs_login cfg) (pkt_from p))
              (reply_texts results) ++
            (if bool_decide (results = []) then [usage_for cfg p] else [])
        | Raise _ => [error_notice_for cfg p]
        end
    ∧ Forall (λ m, is_ack_message m = false) later
    ∧ track w' = track w.
Proof.
  intros Hto Hack.
  pose proof (is_addressed_to_us cfg p Hto) as Hus.
  pose proof (not_ack_marked p Hack) as Hna.
  eexists (packet_world cfg pm p w), _.
  split; [apply process_packet_run|].
  rewrite new_events_packet_world, tx_puts_packet_events, Hus, Hna.
  cbn [andb app]. unfold ack_for.
  split; [reflexivity|]. split; [|split; [reflexivity|split]].
  - intros i Hi. by rewrite Hi.
  - destruct (pm p) as [results|e].
    + apply Forall_app. split.
      * apply Forall_forall. intros m Hm.
        apply list_elem_of_fmap in Hm as (t & -> & _). reflexivity.
      * destruct (bool_decide (results = [])); by repeat constructor.
    + by repeat constructor.
  - unfold packet_world. rewrite Hus, Hna. reflexivity.
Qed.

Lemma content_packet_is_acked_first_witness :
  ∃ w' later,
    APRSDRXThread.process_packet Demo.cfg Demo.pm_pong Demo.ping Demo.w0
    = (Return tt, w')
    ∧ tx_puts (new_events Demo.w0 w')
      = AckMessage "MYCALL" "N0CALL" "5" :: later
    ∧ (∀ i, Some "5" = Some i →
         head (tx_puts (new_events Demo.w0 w'))
         = Some (AckMessage "MYCALL" "N0CALL" i))
    ∧ later = [TextMessage "MYCALL" "N0CALL" "PONG"]
    ∧ Forall (λ m, is_ack_message m = false) later
    ∧ track w' = track Demo.w0.
Proof.
  apply (content_packet_is_acked_first Demo.cfg Demo.pm_pong Demo.ping
           Demo.w0); [reflexivity | discriminate].
Defined.

(** ** The usage reply *)

Lemma usage_for_is_usage cfg p : is_usage (usage_for cfg p) = true.
Proof. reflexivity. Qed.

(** C2, as the code has it.  For packets addressed to the daemon's own
    callsign, not marked "ack", on which the plugin manager returns the
    empty result sequence, the tx queue receives for each packet, in
    arrival order, its ack followed by one usage message: N usage messages
    for N packets.  A non-empty result sequence counts as a reply, also
    when it holds nothing but [NULL_MESSAGE]: then the queue receives the
    ack and the plugins' texts and no usage message is added. *)
Theorem usage_reply_only_for_empty_results
    (cfg : config) (pm : packet → result (list reply)) :
  (∀ (ps : list packet) (w : world),
     Forall (λ p, pkt_addresse p = Some (aprs_login cfg)
                  ∧ pkt_response p ≠ Some "ack"
                  ∧ pm p = Return []) ps →
     ∃ w', APRSDRXThread.process_packets cfg pm ps w = (Return tt, w')
       ∧ tx_puts (new_events w w')
         = concat (map (λ p, [ack_for cfg p; usage_for cfg p]) ps)
       ∧ filter (λ m, is_usage m = true) (tx_puts (new_events w w'))
         = map (usage_for cfg) ps)
  ∧ (∀ (p : packet) (results : list reply) (w : world),
       pkt_addresse p = Some (aprs_login cfg) →
       pkt_response p ≠ Some "ack" →
       pm p = Return results →
       results ≠ [] →
       ∃ w', APRSDRXThread.process_packet cfg pm p w = (Return tt, w')
         ∧ tx_puts (new_events w w')
           = ack_for cfg p
             :: map (TextMessage (aprs_login cfg) (pkt_from p))
                  (reply_texts results)).
Proof.
  split.
  - intros ps w Hps. exists (packets_world cfg pm ps w).
    split; [apply process_packets_run|].
    rewrite (new_events_app _ _ _ (events_packets_world cfg pm ps w)).
    assert (Heq : tx_puts (concat (map (packet_events cfg pm) ps))
                  = concat (map (λ p, [ack_for cfg p; usage_for cfg p]) ps)).
    { clear w. induction Hps as [|p ps (Hto & Hack & Hpm) _ IH]; [done|].
      cbn [map concat]. rewrite tx_puts_app, IH. f_equal.
      rewrite tx_puts_packet_events, (is_addressed_to_us cfg p Hto),
        (not_ack_marked p Hack), Hpm. reflexivity. }
    rewrite Heq. split; [reflexivity|].
    clear. induction ps as [|p ps IH]; [done|].
    cbn [map concat app]. rewrite filter_cons_False by (simpl; congruence).
    rewrite filter_cons_True by apply usage_for_is_usage.
    by rewrite IH.
  - intros p results w Hto Hack Hpm Hne.
    exists (packet_world cfg pm p w).
    split; [apply process_packet_run|].
    rewrite new_events_packet_world, tx_puts_packet_events,
      (is_addressed_to_us cfg p Hto), (not_ack_marked p Hack), Hpm.
    rewrite (bool_decide_eq_false_2 _ Hne). cbn [andb app].
    by rewrite app_nil_r.
Qed.

Lemma usage_reply_only_for_empty_results_witness :
  (∃ w', APRSDRXThread.process_packets Demo.cfg Demo.pm_none
           [Demo.ping; Demo.ping] Demo.w0 = (Return tt, w')
     ∧ tx_puts (new_events Demo.w0 w')
       = concat (map (λ p, [ack_for Demo.cfg p; usage_for Demo.cfg p])
                   [Demo.ping; Demo.ping])
     ∧ filter (λ m, is_usage m = true) (tx_puts (new_events Demo.w0 w'))
       = map (usage_for Demo.cfg) [Demo.ping; Demo.ping])
  ∧ (∃ w', APRSDRXThread.process_packet Demo.cfg Demo.pm_null Demo.ping
             Demo.w0 = (Return tt, w')
       ∧ tx_puts (new_events Demo.w0 w')
         = ack_for Demo.cfg Demo.ping
           :: map (TextMessage "MYCALL" "N0CALL")
                (reply_texts [NULL_MESSAGE])).
Proof.
  split.
  - apply (proj1 (usage_reply_only_for_empty_results Demo.cfg Demo.pm_none)
             [Demo.ping; Demo.ping] Demo.w0).
    repeat constructor; discriminate.
  - apply (proj2 (usage_reply_only_for_empty_results Demo.cfg Demo.pm_null)
             Demo.ping [NULL_MESSAGE] Demo.w0);
      first [reflexivity | discriminate].
Defined.

(** C2 as stated fails when a plugin returns [NULL_MESSAGE]: the packet is
    addressed to the daemon, every plugin result is the no-reply flag, and
    yet no usage message is put on the tx queue. *)
Lemma usage_reply_not_sent_after_null_message :
  Forall (λ p, pkt_addresse p = Some (aprs_login Demo.cfg)
               ∧ pkt_response p ≠ Some "ack"
               ∧ ∃ results, Demo.pm_null p = Return results
                   ∧ Forall (λ r, r = NULL_MESSAGE) results) [Demo.ping]
  ∧ filter (λ m, is_usage m = true)
      (tx_puts (events (snd (APRSDRXThread.process_packets Demo.cfg
                               Demo.pm_null [Demo.ping] Demo.w0)))) = []
  ∧ length (filter (λ m, is_usage m = true)
      (tx_puts (events (snd (APRSDRXThread.process_packets Demo.cfg
                               Demo.pm_null [Demo.ping] Demo.w0)))))
    ≠ length [Demo.ping].
Proof.
  split; [|split].
  - repeat constructor; [discriminate|].
    exists [NULL_MESSAGE]. by repeat constructor.
  - reflexivity.
  - discriminate.
Qed.

(** ** The RX loop *)

Lemma set_watch_list_filter_run cfg w :
  APRSDRXThread.set_watch_list_filter cfg w
  = (Return tt, emits (watch_list_events cfg) w).
Proof.
  unfold APRSDRXThread.set_watch_list_filter, watch_list_events.
  destruct (aprsd_watch_list cfg) as [wl|]; [|by rewrite emits_nil].
  destruct (default false (wl_enabled wl)); [|by rewrite emits_nil].
  by destruct (default [] (wl_callsigns wl)).
Qed.

Lemma loop_run cfg pm c w :
  APRSDRXThread.loop cfg pm c w
  = let w' := packets_world cfg pm (delivered c)
                (emits (watch_list_events cfg ++ [EvConsumer]) w) in
    match ending c with
    | None => (Return true, w')
    | Some e =>
        if is_ConnectionDrop e then (Return true, emits reconnect_events w')
        else (Raise e, w')
    end.
Proof.
  unfold APRSDRXThread.loop, APRSDRXThread.consumer.
  unfold bind at 1. rewrite set_watch_list_filter_run.
  unfold bind at 1. unfold try_except. unfold bind at 1 2.
  unfold effect at 1. rewrite emit_as_emits, emits_emits.
  rewrite process_packets_run. cbv zeta.
  destruct (ending c) as [e|]; [|reflexivity].
  unfold raise. destruct (is_ConnectionDrop e); [|reflexivity].
  unfold bind, log, effect. by rewrite !emit_as_emits, !emits_emits.
Qed.

Lemma events_loop_world cfg pm c w :
  events (packets_world cfg pm (delivered c)
            (emits (watch_list_events cfg ++ [EvConsumer]) w))
  = events w ++ watch_list_events cfg ++ [EvConsumer]
      ++ concat (map (packet_events cfg pm) (delivered c)).
Proof. rewrite events_packets_world. simpl. by rewrite <- !app_assoc. Qed.

Lemma packet_events_kind cfg pm p :
  Forall (λ e, packet_event e = true) (packet_events cfg pm p).
Proof.
  assert (Htexts : ∀ texts,
            Forall (λ e, packet_event e = true)
              (text_events cfg (pkt_from p) texts)).
  { induction texts as [|t texts IH]; [constructor|].
    by repeat (constructor; [reflexivity|]). }
  unfold packet_events, dispatch_events.
  destruct (addressed_to_us cfg p), (ack_marked p), (pm p) as [results|e];
    try destruct (bool_decide (results = [])); cbn [andb];
    repeat first
      [ apply Htexts
      | apply Forall_nil_2
      | apply Forall_cons_2; [reflexivity|]
      | apply Forall_app; split ].
Qed.

Lemma packets_events_kind cfg pm ps :
  Forall (λ e, packet_event e = true)
    (concat (map (packet_events cfg pm) ps)).
Proof.
  induction ps as [|p ps IH]; [constructor|].
  cbn [map concat]. apply Forall_app.
  split; [apply packet_events_kind | apply IH].
Qed.

Lemma watch_list_events_kind cfg :
  Forall (λ e, match e with
               | EvSetFilter _ | EvLog WARNING _ => True
               | _ => False
               end) (watch_list_events cfg).
Proof.
  unfold watch_list_events.
  destruct (aprsd_watch_list cfg) as [wl|]; [|constructor].
  destruct (default false (wl_enabled wl)); [|constructor].
  destruct (default [] (wl_callsigns wl)); by repeat constructor.
Qed.

(** C6.  When the consumer raises [ConnectionDrop], [loop] catches it,
    logs an error, sleeps five seconds, resets the client, in this order
    and as the last things it does, and returns true. *)
Theorem connection_drop_is_recovered
    (cfg : config) (pm : packet → result (list reply))
    (ps : list packet) (w : world) :
  ∃ w' before,
    APRSDRXThread.loop cfg pm (ConsumerRun ps (Some ConnectionDrop)) w
    = (Return true, w')
    ∧ new_events w w'
      = before ++ [EvLog ERROR "Connection dropped, reconnecting";
                   EvSleep 5; EvClientReset]
    ∧ (EvClientReset ∉ before)
    ∧ (∀ s, EvSleep s ∉ before).
Proof.
  eexists _, (watch_list_events cfg ++ [EvConsumer]
              ++ concat (map (packet_events cfg pm) ps)).
  rewrite loop_run. cbn [ending delivered]. cbv zeta.
  change (is_ConnectionDrop ConnectionDrop) with true. cbv iota.
  split; [reflexivity|].
  assert (Hno : Forall (λ e, e ≠ EvClientReset ∧ ∀ s, e ≠ EvSleep s)
                  (watch_list_events cfg ++ [EvConsumer]
                   ++ concat (map (packet_events cfg pm) ps))).
  { repeat (apply Forall_app; split).
    - eapply Forall_impl; [apply watch_list_events_kind|].
      intros [] H; try done. 
    - by repeat constructor.
    - eapply Forall_impl; [apply packets_events_kind|].
      by intros []. }
  split; [|split].
  - apply new_events_app. unfold emits at 1. cbn [events].
    rewrite (events_loop_world cfg pm (ConsumerRun ps (Some ConnectionDrop))).
    cbn [delivered]. unfold reconnect_events. by rewrite <- !app_assoc.
  - intros Hin. rewrite Forall_forall in Hno. by destruct (Hno _ Hin).
  - intros s Hin. rewrite Forall_forall in Hno.
    destruct (Hno _ Hin) as [_ H]. by apply (H s).
Qed.

(** ** The watch list *)

Lemma pm_calls_packets_events cfg pm ps :
  pm_calls (concat (map (packet_events cfg pm) ps))
  = filter (λ p, addressed_to_us cfg p && ack_marked p = false) ps.
Proof.
  induction ps as [|p ps IH]; [done|].
  cbn [map concat]. rewrite pm_calls_app, IH, pm_calls_packet_events.
  destruct (addressed_to_us cfg p && ack_marked p) eqn:Hack.
  - by rewrite filter_cons_False by (rewrite Hack; discriminate).
  - by rewrite filter_cons_True by done.
Qed.

Lemma new_events_loop cfg pm c w :
  new_events w (snd (APRSDRXThread.loop cfg pm c w))
  = watch_list_events cfg ++ [EvConsumer]
    ++ concat (map (packet_events cfg pm) (delivered c))
    ++ match ending c with
       | Some e => if is_ConnectionDrop e then reconnect_events else []
       | None => []
       end.
Proof.
  apply new_events_app. rewrite loop_run. cbv zeta.
  destruct (ending c) as [e|]; [destruct (is_ConnectionDrop e)|];
    cbn [snd].
  - unfold emits at 1. cbn [events].
    by rewrite events_loop_world, <- !app_assoc.
  - by rewrite events_loop_world, app_nil_r.
  - by rewrite events_loop_world, app_nil_r.
Qed.

(** ** Failing plugins *)

Lemma pm_calls_watch_list_events cfg : pm_calls (watch_list_events cfg) = [].
Proof.
  pose proof (watch_list_events_kind cfg) as Hk.
  induction Hk as [|e l He _ IH]; [done|]. by destruct e.
Qed.

(** C3.  When [PluginManager.run] raises on a packet, [process_packet]
    still returns normally.  If the packet is addressed to the daemon's
    own callsign, the tx queue receives the ack and exactly one error
    notice for the sender; otherwise it receives nothing.  In both cases
    the packets that follow are processed as usual, and a [loop] whose
    consumer delivers the packet and others after it returns true, with
    the plugin manager run on the packet and on those after it. *)
Theorem plugin_failure_is_contained
    (cfg : config) (pm : packet → result (list reply)) (p : packet)
    (e : exn) (w : world) :
  pm p = Raise e →
  addressed_to_us cfg p && ack_marked p = false →
  ∃ w', APRSDRXThread.process_packet cfg pm p w = (Return tt, w')
    ∧ pm_calls (new_events w w') = [p]
    ∧ (pkt_addresse p = Some (aprs_login cfg) →
         tx_puts (new_events w w')
         = [ack_for cfg p;
            TextMessage (aprs_login cfg) (pkt_from p)
              "A Plugin failed! try again?"]
         ∧ length (filter (λ m, is_error_notice m = true)
                     (tx_puts (new_events w w'))) = 1%nat)
    ∧ (pkt_addresse p ≠ Some (aprs_login cfg) →
         tx_puts (new_events w w') = [])
    ∧ (∀ rest,
         APRSDRXThread.process_packets cfg pm (p :: rest) w
         = (Return tt, packets_world cfg pm rest w'))
    ∧ (∀ rest, ∃ w'',
         APRSDRXThread.loop cfg pm (ConsumerRun (p :: rest) None) w
         = (Return true, w'')
         ∧ pm_calls (new_events w w'')
           = p :: filter (λ q, addressed_to_us cfg q && ack_marked q = false)
                    rest).
Proof.
  intros Hpm Hdispatch. exists (packet_world cfg pm p w).
  split; [apply process_packet_run|].
  rewrite new_events_packet_world, pm_calls_packet_events,
    tx_puts_packet_events, Hdispatch, Hpm.
  split; [reflexivity|]. split; [|split; [|split]].
  - intros Hto. rewrite (is_addressed_to_us cfg p Hto). by split.
  - intros Hto. by rewrite (not_addressed_to_us cfg p Hto).
  - intros rest. by rewrite process_packets_run.
  - intros rest.
    pose proof (new_events_loop cfg pm (ConsumerRun (p :: rest) None) w)
      as Hnew.
    revert Hnew. rewrite loop_run. cbn [ending delivered snd]. intros Hnew.
    eexists. split; [reflexivity|].
    rewrite Hnew, !pm_calls_app, pm_calls_watch_list_events,
      pm_calls_packets_events.
    cbn [app pm_calls omap]. rewrite app_nil_r.
    by rewrite filter_cons_True by done.
Qed.

Lemma plugin_failure_is_contained_witness :
  ∃ w', APRSDRXThread.process_packet Demo.cfg Demo.pm_fails Demo.ping
          Demo.w0 = (Return tt, w')
    ∧ pm_calls (new_events Demo.w0 w') = [Demo.ping]
    ∧ (pkt_addresse Demo.ping = Some (aprs_login Demo.cfg) →
         tx_puts (new_events Demo.w0 w')
         = [ack_for Demo.cfg Demo.ping;
            TextMessage "MYCALL" "N0CALL" "A Plugin failed! try again?"]
         ∧ length (filter (λ m, is_error_notice m = true)
                     (tx_puts (new_events Demo.w0 w'))) = 1%nat)
    ∧ (pkt_addresse Demo.ping ≠ Some (aprs_login Demo.cfg) →
         tx_puts (new_events Demo.w0 w') = [])
    ∧ (∀ rest,
         APRSDRXThread.process_packets Demo.cfg Demo.pm_fails
           (Demo.ping :: rest) Demo.w0
         = (Return tt, packets_world Demo.cfg Demo.pm_fails rest w'))
    ∧ (∀ rest, ∃ w'',
         APRSDRXThread.loop Demo.cfg Demo.pm_fails
           (ConsumerRun (Demo.ping :: rest) None) Demo.w0
         = (Return true, w'')
         ∧ pm_calls (new_events Demo.w0 w'')
           = Demo.ping
             :: filter (λ q, addressed_to_us Demo.cfg q && ack_marked q = false)
                  rest).
Proof.
  apply (plugin_failure_is_contained Demo.cfg Demo.pm_fails Demo.ping
           (OtherError "plugin") Demo.w0); reflexivity.
Defined.

(** C9, as the code has it.  With the watch list enabled, [loop] asks the
    client, before it calls the consumer, to filter on "p/" followed by
    the callsigns joined with "/" when the list is non-empty, and logs a
    warning and sets no filter when it is empty.  The worker itself never
    compares a sender with the list: every packet the consumer delivers,
    whoever sent it, is handed to the plugin manager unless it is an ack
    addressed to the daemon. *)
Theorem watch_list_filter_is_left_to_the_client
    (cfg : config) (pm : packet → result (list reply)) (c : consumer_run)
    (w : world) (wl : watch_list_config) :
  aprsd_watch_list cfg = Some wl →
  wl_enabled wl = Some true →
  ∃ rest,
    let w' := snd (APRSDRXThread.loop cfg pm c w) in
    (∀ cs, wl_callsigns wl = Some cs → cs ≠ [] →
       new_events w w'
       = EvSetFilter ("p/" ++ String.concat "/" cs)%string
         :: EvConsumer :: rest)
    ∧ (default [] (wl_callsigns wl) = [] →
         new_events w w'
         = EvLog WARNING "Watch list enabled, but no callsigns set."
           :: EvConsumer :: rest
         ∧ ∀ f, EvSetFilter f ∉ new_events w w')
    ∧ pm_calls (new_events w w')
      = filter (λ p, addressed_to_us cfg p && ack_marked p = false)
          (delivered c).
Proof.
  intros Hwl Hen.
  set (tail := match ending c with
               | Some e => if is_ConnectionDrop e then reconnect_events
                           else []
               | None => []
               end).
  assert (Htail : pm_calls tail = [] ∧ ∀ f, EvSetFilter f ∉ tail).
  { unfold tail. destruct (ending c) as [e|];
      [destruct (is_ConnectionDrop e)|]; (split; [reflexivity|]);
      intros f Hin; rewrite list_elem_of_In in Hin; simpl in Hin;
      intuition discriminate. }
  destruct Htail as [Hpm_tail Hno_tail].
  exists (concat (map (packet_events cfg pm) (delivered c)) ++ tail).
  cbv zeta. rewrite new_events_loop. fold tail.
  unfold watch_list_events. rewrite Hwl, Hen. cbn [default].
  split; [|split].
  - intros cs Hcs Hne. rewrite Hcs. cbn [default].
    destruct cs as [|c0 cs]; [done|]. reflexivity.
  - intros Hempty. rewrite Hempty. split; [reflexivity|].
    intros f Hin. cbn [app] in Hin.
    apply elem_of_cons in Hin as [Hin|Hin]; [discriminate|].
    apply elem_of_cons in Hin as [Hin|Hin]; [discriminate|].
    apply elem_of_app in Hin as [Hin|Hin]; [|by apply (Hno_tail f)].
    pose proof (packets_events_kind cfg pm (delivered c)) as Hk.
    rewrite Forall_forall in Hk. specialize (Hk _ Hin). discriminate.
  - rewrite !pm_calls_app, pm_calls_packets_events, Hpm_tail, app_nil_r.
    by destruct (default [] (wl_callsigns wl)).
Qed.

Lemma watch_list_filter_is_left_to_the_client_witness :
  ∃ rest,
    let w' := snd (APRSDRXThread.loop Demo.cfg_watch Demo.pm_pong
                     (ConsumerRun [Demo.from_C; Demo.ack7] None) Demo.w0) in
    (∀ cs, Some ["A"; "B"] = Some cs → cs ≠ [] →
       new_events Demo.w0 w'
       = EvSetFilter ("p/" ++ String.concat "/" cs)%string
         :: EvConsumer :: rest)
    ∧ (default [] (Some ["A"; "B"]) = [] →
         new_events Demo.w0 w'
         = EvLog WARNING "Watch list enabled, but no callsigns set."
           :: EvConsumer :: rest
         ∧ ∀ f, EvSetFilter f ∉ new_events Demo.w0 w')
    ∧ pm_calls (new_events Demo.w0 w')
      = filter (λ p, addressed_to_us Demo.cfg_watch p && ack_marked p = false)
          [Demo.from_C; Demo.ack7].
Proof.
  apply (watch_list_filter_is_left_to_the_client Demo.cfg_watch Demo.pm_pong
           (ConsumerRun [Demo.from_C; Demo.ack7] None) Demo.w0
           (WatchList (Some true) (Some ["A"; "B"]))); reflexivity.
Defined.

(** C9 as stated fails: with the watch list enabled for "A" and "B", a
    packet from "C" that the consumer delivers reaches the plugin
    manager. *)
Lemma unlisted_sender_reaches_plugins :
  aprsd_watch_list Demo.cfg_watch
  = Some (WatchList (Some true) (Some ["A"; "B"]))
  ∧ (pkt_from Demo.from_C ∉ ["A"; "B"])
  ∧ Demo.from_C
    ∈ pm_calls (events (snd (APRSDRXThread.loop Demo.cfg_watch Demo.pm_pong
                               (ConsumerRun [Demo.from_C] None) Demo.w0))).
Proof.
  split; [reflexivity|]. split.
  - rewrite list_elem_of_In. simpl. intuition discriminate.
  - rewrite list_elem_of_In. simpl. by left.
Qed.

(** ** The TX loop *)

(** C1, as the code has it.  When the queue hands over nothing within the
    five seconds, [loop] returns true and has sent nothing.  When it hands
    over an item, [loop] calls the item's [send]: if [send] returns, or
    raises [queue.Empty], [loop] returns true; any other exception of
    [send] leaves [loop] uncaught, in the world [send] left behind, so
    [loop] itself has logged nothing. *)
Theorem tx_loop_catches_only_queue_empty
    (send : message → M unit) (w : world) :
  (APRSDTXThread.loop send None w = (Return true, emit (EvTxGet 5) w)
   ∧ sends (new_events w (emit (EvTxGet 5) w)) = [])
  ∧ (∀ msg,
       let w1 := emit (EvSend msg) (emit (EvTxGet 5) w) in
       APRSDTXThread.loop send (Some msg) w
       = match send msg w1 with
         | (Return _, w') => (Return true, w')
         | (Raise e, w') =>
             if bool_decide (e = QueueEmpty) then (Return true, w')
             else (Raise e, w')
         end).
Proof.
  split; [split|].
  - reflexivity.
  - by rewrite emit_as_emits, new_events_emits.
  - intros msg. cbv zeta.
    unfold APRSDTXThread.loop, APRSDTXThread.tx_get, APRSDTXThread.msg_send,
      is_QueueEmpty.
    run_m.
    destruct (send msg _) as [[[]|e] w']; [reflexivity|].
    by destruct (bool_decide (e = QueueEmpty)).
Qed.

(** C1 as stated fails: an item whose [send] raises makes [loop] raise,
    not return true. *)
Lemma tx_loop_propagates_send_failure :
  ∃ w', APRSDTXThread.loop Demo.send_fails
          (Some (TextMessage "MYCALL" "N0CALL" "PONG")) Demo.w0
        = (Raise (OtherError "send"), w')
    ∧ ∀ level text, EvLog level text ∉ events w'.
Proof.
  eexists. split; [reflexivity|].
  intros level text Hin. rewrite list_elem_of_In in Hin. simpl in Hin.
  intuition discriminate.
Qed.

(** ** The thread registry *)

Lemma threads_list_stop t s : threads_list (stop t s) = threads_list s.
Proof. unfold stop. by destruct (objects s !! t). Qed.

Lemma fmap_same {A} (mx : option A) : (λ x, x) <$> mx = mx.
Proof. by destruct mx. Qed.

Lemma lookup_stop t s (u : tid) :
  objects (stop t s) !! u
  = (λ o, if bool_decide (u = t) then set_thread_stop o else o)
      <$> objects s !! u.
Proof.
  unfold stop. destruct (objects s !! t) as [o|] eqn:Ht; simpl.
  - destruct (decide (u = t)) as [->|Hne].
    + rewrite bool_decide_eq_true_2 by done.
      rewrite list_lookup_insert_eq by (by eapply lookup_lt_Some).
      by rewrite Ht.
    + rewrite bool_decide_eq_false_2 by done.
      rewrite list_lookup_insert_ne by congruence.
      by rewrite fmap_same.
  - destruct (decide (u = t)) as [->|Hne].
    + by rewrite Ht.
    + rewrite bool_decide_eq_false_2 by done.
      by rewrite fmap_same.
Qed.

Lemma stop_log_stop t s :
  is_Some (objects s !! t) → stop_log (stop t s) = stop_log s ++ [t].
Proof. intros [o Ho]. unfold stop. by rewrite Ho. Qed.

Lemma length_objects_stop t s :
  length (objects (stop t s)) = length (objects s).
Proof.
  unfold stop. destruct (objects s !! t); [|done].
  simpl. by rewrite length_insert.
Qed.

Lemma foldl_stop (l : list tid) s :
  let s' := foldl (λ acc th, stop th acc) s l in
  threads_list s' = threads_list s
  ∧ (∀ u : tid,
       objects s' !! u
       = (λ o, if bool_decide (u ∈ l) then set_thread_stop o else o)
           <$> objects s !! u)
  ∧ (Forall (λ t, is_Some (objects s !! t)) l →
     stop_log s' = stop_log s ++ l).
Proof.
  revert s. induction l as [|t l IH]; intros s; cbn [foldl]; cbv zeta.
  - split; [done|]. split; [|by rewrite app_nil_r].
    intros u. rewrite <- (fmap_same (objects s !! u)) at 1.
    apply option_fmap_ext. intros o.
    by rewrite bool_decide_eq_false_2 by apply not_elem_of_nil.
  - destruct (IH (stop t s)) as (Hl & Ho & Hlog).
    split; [by rewrite Hl, threads_list_stop|]. split.
    + intros u. rewrite Ho, lookup_stop, <- option_fmap_compose.
      apply option_fmap_ext. intros o. simpl.
      destruct (decide (u = t)) as [->|Hne].
      * rewrite (bool_decide_eq_true_2 (t = t)) by done.
        rewrite (bool_decide_eq_true_2 (t ∈ t :: l)) by left.
        by destruct (bool_decide (t ∈ l)).
      * rewrite (bool_decide_eq_false_2 (u = t)) by done.
        destruct (decide (u ∈ l)) as [Hin|Hnin].
        -- rewrite !bool_decide_eq_true_2; [done | by right | done].
        -- rewrite !bool_decide_eq_false_2; [done | | done].
           intros [?|?]%elem_of_cons; done.
    + intros Hall. apply Forall_cons in Hall as [Ht Hall].
      rewrite Hlog, (stop_log_stop t s Ht); [by rewrite <- app_assoc|].
      eapply Forall_impl; [exact Hall|].
      intros u [o Hu]. rewrite lookup_stop, Hu. by eexists.
Qed.

Lemma list_remove_elem x l :
  x ∈ l → is_Some (APRSDThreadList.list_remove x l).
Proof.
  induction l as [|y l IH]; [by intros ?%not_elem_of_nil|].
  intros Hin. simpl. destruct (decide (y = x)) as [->|Hne].
  - rewrite bool_decide_eq_true_2 by done. by eexists.
  - rewrite bool_decide_eq_false_2 by done.
    apply elem_of_cons in Hin as [->|Hin]; [done|].
    destruct (IH Hin) as [l' ->]. by eexists.
Qed.

Lemma list_remove_Some x l l' :
  NoDup l → APRSDThreadList.list_remove x l = Some l' →
  NoDup l' ∧ ∀ y, y ∈ l' ↔ y ∈ l ∧ y ≠ x.
Proof.
  revert l'. induction l as [|z l IH]; intros l' Hnd Hrm; [done|].
  apply NoDup_cons in Hnd as [Hz Hnd]. simpl in Hrm.
  destruct (decide (z = x)) as [->|Hne].
  - rewrite bool_decide_eq_true_2 in Hrm by done. injection Hrm as <-.
    split; [done|]. intros y. rewrite elem_of_cons. split.
    + intros Hy. split; [by right|]. by intros ->.
    + by intros [[->|Hy] Hyx].
  - rewrite bool_decide_eq_false_2 in Hrm by done.
    destruct (APRSDThreadList.list_remove x l) as [l0|] eqn:Hl0; [|done].
    injection Hrm as <-. destruct (IH l0 Hnd eq_refl) as [Hnd0 Hin0].
    split.
    + apply NoDup_cons. split; [|done]. rewrite Hin0. by intros [? _].
    + intros y. rewrite !elem_of_cons, Hin0. split.
      * intros [->|[Hy Hyx]]; [by split; [left|]|by split; [right|]].
      * intros [[->|Hy] Hyx]; [by left|by right].
Qed.

Lemma lookup_set_obj t o s (u : tid) :
  is_Some (objects s !! t) →
  objects (set_obj t o s) !! u
  = if bool_decide (u = t) then Some o else objects s !! u.
Proof.
  intros [o0 Ht]. unfold set_obj. simpl.
  destruct (decide (u = t)) as [->|Hne].
  - rewrite bool_decide_eq_true_2 by done.
    apply list_lookup_insert_eq. by eapply lookup_lt_Some.
  - rewrite bool_decide_eq_false_2 by done.
    apply list_lookup_insert_ne. congruence.
Qed.

Lemma registry_inv_init : registry_inv init_system.
Proof.
  split; [constructor|]. intros t. split.
  - by intros ?%not_elem_of_nil.
  - by intros (o & Ho & _).
Qed.

(** Replacing an object whose [run] has not returned by another such
    object keeps the invariant. *)
Lemma registry_inv_set_obj t o o' s :
  registry_inv s → objects s !! t = Some o →
  th_pc o ≠ Exited → th_pc o' ≠ Exited →
  registry_inv (set_obj t o' s).
Proof.
  intros [Hnd Hiff] Ht Ho Ho'. split; [done|]. intros u.
  cbn [threads_list set_obj]. rewrite Hiff.
  change (<[t:=o']> (objects s)) with (objects (set_obj t o' s)).
  rewrite lookup_set_obj by (by eexists).
  destruct (decide (u = t)) as [->|Hne].
  - rewrite bool_decide_eq_true_2 by done. split; intros _; by eexists.
  - by rewrite bool_decide_eq_false_2 by done.
Qed.

Lemma registry_inv_stop t s : registry_inv s → registry_inv (stop t s).
Proof.
  intros [Hnd Hiff]. split; [by rewrite threads_list_stop|].
  intros u. rewrite threads_list_stop, Hiff, lookup_stop. split.
  - intros (o & -> & Hpc). eexists. split; [reflexivity|].
    by destruct (bool_decide (u = t)).
  - intros (o' & Hu & Hpc).
    destruct (objects s !! u) as [o|]; [|done]. exists o. split; [done|].
    injection Hu as <-. by destruct (bool_decide (u = t)).
Qed.

Lemma registry_inv_foldl_stop l s :
  registry_inv s → registry_inv (foldl (λ acc th, stop th acc) s l).
Proof.
  revert s. induction l as [|t l IH]; intros s Hs; [done|].
  apply IH. by apply registry_inv_stop.
Qed.

Lemma registry_inv_init_thread name is_rx s :
  registry_inv s → registry_inv (APRSDThread.init name is_rx s).
Proof.
  intros [Hnd Hiff]. unfold APRSDThread.init, APRSDThreadList.add.
  cbn [threads_list objects].
  assert (Hfresh : length (objects s) ∉ threads_list s).
  { rewrite Hiff. intros (o & Ho & _). apply lookup_lt_Some in Ho. lia. }
  split.
  - apply NoDup_app. split; [done|]. split; [|apply NoDup_singleton].
    intros u Hu ->%list_elem_of_singleton. done.
  - intros u. cbn [threads_list objects].
    rewrite elem_of_app, list_elem_of_singleton, Hiff. split.
    + intros [(o & Ho & Hpc)| ->].
      * exists o. split; [|done]. by apply lookup_app_l_Some.
      * eexists. split; [|shelve]. rewrite lookup_app_r by done.
        by rewrite Nat.sub_diag. Unshelve. done.
    + intros (o & Ho & Hpc).
      destruct (decide (u < length (objects s))%nat) as [Hlt|Hge].
      * left. exists o. split; [|done]. by rewrite lookup_app_l in Ho.
      * right. apply lookup_lt_Some in Ho. rewrite length_app in Ho.
        simpl in Ho. lia.
Qed.

Lemma registry_inv_run_step t out s :
  registry_inv s → registry_inv (APRSDThread.run_step t out s).
Proof.
  intros Hs. unfold APRSDThread.run_step.
  destruct (objects s !! t) as [o|] eqn:Ht; [|done].
  destruct (th_pc o) as [| |can_loop| | |e] eqn:Hpc; try done.
  - destruct (thread_stop o);
      by apply (registry_inv_set_obj t o); rewrite ?Hpc.
  - destruct out as [can_loop|e];
      by apply (registry_inv_set_obj t o); rewrite ?Hpc.
  - cbv zeta. destruct can_loop.
    + rewrite Ht. by apply (registry_inv_set_obj t o); rewrite ?Hpc.
    + rewrite lookup_stop, Ht. simpl.
      rewrite bool_decide_eq_true_2 by done.
      apply (registry_inv_set_obj t (set_thread_stop o));
        [by apply registry_inv_stop | | by simpl; rewrite Hpc | done].
      rewrite lookup_stop, Ht. simpl.
      by rewrite bool_decide_eq_true_2 by done.
  - destruct Hs as [Hnd Hiff].
    assert (Hin : t ∈ threads_list s).
    { apply Hiff. exists o. by rewrite Hpc. }
    unfold APRSDThreadList.remove.
    destruct (list_remove_elem t _ Hin) as [l' Hl']. rewrite Hl'. simpl.
    destruct (list_remove_Some t _ l' Hnd Hl') as [Hnd' Hin'].
    split; [done|]. intros u. cbn [threads_list set_obj objects].
    rewrite Hin', Hiff.
    destruct (decide (u = t)) as [->|Hne].
    + rewrite list_lookup_insert_eq by (by eapply lookup_lt_Some).
      split; [by intros [_ ?]|]. by intros (o' & [= <-] & Hpc').
    + rewrite list_lookup_insert_ne by congruence. split.
      * by intros [? _].
      * by intros ?.
Qed.

Lemma registry_inv_step a s : registry_inv s → registry_inv (step a s).
Proof.
  destruct a; simpl.
  - apply registry_inv_init_thread.
  - apply registry_inv_run_step.
  - apply registry_inv_stop.
  - apply registry_inv_foldl_stop.
Qed.

Lemma registry_inv_exec sched s :
  registry_inv s → registry_inv (exec sched s).
Proof.
  revert s. induction sched as [|a sched IH]; intros s Hs; [done|].
  apply IH. by apply registry_inv_step.
Qed.

Lemma count_in_NoDup (t : tid) (l : list tid) :
  NoDup l →
  length (filter (λ u, u = t) l) = if bool_decide (t ∈ l) then 1%nat else 0%nat.
Proof.
  induction 1 as [|u l Hu Hnd IH].
  - by rewrite bool_decide_eq_false_2 by apply not_elem_of_nil.
  - destruct (decide (u = t)) as [->|Hne].
    + rewrite filter_cons_True by done.
      rewrite (bool_decide_eq_true_2 (t ∈ t :: l)) by left.
      rewrite (bool_decide_eq_false_2 (t ∈ l)) in IH by done.
      simpl. by rewrite IH.
    + rewrite filter_cons_False by done. rewrite IH.
      destruct (decide (t ∈ l)) as [Hin|Hnin].
      * rewrite !bool_decide_eq_true_2; [done | by right | done].
      * rewrite !bool_decide_eq_false_2; [done | | done].
        intros [?|?]%elem_of_cons; done.
Qed.

(** C7.  In every state the thread system can reach, one call of
    [stop_all] invokes [stop()] on the registered threads in registry
    order, once on each of them and on no other thread; afterwards each of
    them has its stop flag set.  The registry's membership is as before,
    and every thread is at the point of [run] where it was: [stop_all]
    returns without any thread having exited. *)
Theorem stop_all_stops_each_registered_thread_once (sched : list action) :
  let s := exec sched init_system in
  let s' := APRSDThreadList.stop_all s in
  APRSDThreadList.stop_all_calls s = threads_list s
  ∧ (∀ t, t ∈ threads_list s →
       length (filter (λ u, u = t) (APRSDThreadList.stop_all_calls s))
       = 1%nat)
  ∧ (∀ t, t ∉ threads_list s →
       length (filter (λ u, u = t) (APRSDThreadList.stop_all_calls s))
       = 0%nat)
  ∧ (∀ t, t ∈ threads_list s → stopped s' t = Some true)
  ∧ threads_list s' = threads_list s
  ∧ (∀ t, pc_of s' t = pc_of s t).
Proof.
  cbv zeta. set (s := exec sched init_system).
  assert (Hinv : registry_inv s)
    by apply registry_inv_exec, registry_inv_init.
  destruct Hinv as [Hnd Hiff].
  destruct (foldl_stop (threads_list s) s) as (Hl & Ho & Hlog).
  fold (APRSDThreadList.stop_all s) in Hl, Ho, Hlog.
  assert (Hcalls : APRSDThreadList.stop_all_calls s = threads_list s).
  { unfold APRSDThreadList.stop_all_calls. rewrite Hlog.
    - by rewrite drop_app_length.
    - apply Forall_forall. intros t Ht. apply Hiff in Ht as (o & -> & _).
      by eexists. }
  rewrite Hcalls. split; [done|]. split; [|split; [|split; [|split]]].
  - intros t Ht. rewrite count_in_NoDup by done.
    by rewrite bool_decide_eq_true_2.
  - intros t Ht. rewrite count_in_NoDup by done.
    by rewrite bool_decide_eq_false_2.
  - intros t Ht. unfold stopped. rewrite Ho.
    apply Hiff in Ht as Ht'. destruct Ht' as (o & -> & _). simpl.
    by rewrite bool_decide_eq_true_2.
  - done.
  - intros t. unfold pc_of. rewrite Ho, <- option_fmap_compose.
    apply option_fmap_ext. intros o. simpl.
    by destruct (bool_decide (t ∈ threads_list s)).
Qed.

(** ** The run loop *)

Lemma lookup_run_step_ne t out s (u : tid) :
  u ≠ t → objects (APRSDThread.run_step t out s) !! u = objects s !! u.
Proof.
  intros Hne. unfold APRSDThread.run_step.
  assert (Hset : ∀ o' s0, objects (set_obj t o' s0) !! u = objects s0 !! u).
  { intros o' s0. unfold set_obj. simpl.
    apply list_lookup_insert_ne. congruence. }
  assert (Hstop : objects (stop t s) !! u = objects s !! u).
  { rewrite lookup_stop, bool_decide_eq_false_2 by done.
    apply fmap_same. }
  destruct (objects s !! t) as [o|] eqn:Ht; [|done].
  destruct (th_pc o) as [| |can_loop| | |e]; try done.
  - destruct (thread_stop o); apply Hset.
  - destruct out; apply Hset.
  - cbv zeta. destruct can_loop.
    + rewrite Ht. apply Hset.
    + destruct (objects (stop t s) !! t); rewrite ?Hset; apply Hstop.
  - unfold APRSDThreadList.remove.
    destruct (APRSDThreadList.list_remove t (threads_list s));
      simpl; apply list_lookup_insert_ne; congruence.
Qed.

(** What an action that is no step of thread [t] leaves of [t]'s object:
    the point in [run] and the number of loop calls; a set stop flag stays
    set. *)
Lemma frame_step a s t o :
  is_step_of t a = false → objects s !! t = Some o →
  ∃ o', objects (step a s) !! t = Some o'
    ∧ th_pc o' = th_pc o ∧ th_loops o' = th_loops o
    ∧ (thread_stop o = true → thread_stop o' = true).
Proof.
  intros Ha Ht. destruct a as [name is_rx|t' out|t'|]; simpl in *.
  - exists o. split; [by apply lookup_app_l_Some|done].
  - exists o. split; [|done]. rewrite lookup_run_step_ne; [done|].
    intros ->. by rewrite bool_decide_eq_true_2 in Ha.
  - rewrite lookup_stop, Ht. simpl. eexists. split; [reflexivity|].
    by destruct (bool_decide (t = t')).
  - destruct (foldl_stop (threads_list s) s) as (_ & Ho & _).
    unfold APRSDThreadList.stop_all. rewrite Ho, Ht. simpl.
    eexists. split; [reflexivity|].
    by destruct (bool_decide (t ∈ threads_list s)).
Qed.










Lemma stop_all_stops_each_registered_thread_once_witness :
  let s := exec Demo.two_threads init_system in
  let s' := APRSDThreadList.stop_all s in
  APRSDThreadList.stop_all_calls s = threads_list s
  ∧ (∀ t, t ∈ threads_list s →
       length (filter (λ u, u = t) (APRSDThreadList.stop_all_calls s))
       = 1%nat)
  ∧ (∀ t, t ∉ threads_list s →
       length (filter (λ u, u = t) (APRSDThreadList.stop_all_calls s))
       = 0%nat)
  ∧ (∀ t, t ∈ threads_list s → stopped s' t = Some true)
  ∧ threads_list s' = threads_list s
  ∧ (∀ t, pc_of s' t = pc_of s t).
Proof. exact (stop_all_stops_each_registered_thread_once Demo.two_threads). Defined.

Example stop_all_on_two_threads :
  let s := exec Demo.two_threads init_system in
  threads_list s = [0; 1]%nat
  ∧ APRSDThreadList.stop_all_calls s = [0; 1]%nat
  ∧ client_stops (APRSDThreadList.stop_all s) = 1%nat
  ∧ stop_log (APRSDThreadList.stop_all (APRSDThreadList.stop_all s))
    = [0; 1; 0; 1]%nat.
Proof. repeat split. Qed.


Example tx_thread_runs_to_exit :
  let s := exec (Demo.tx_returns_false
                 ++ [ActStep 1%nat (Return true); ActStep 0%nat (Return true);
                     ActStep 1%nat (Return true); ActStep 1%nat (Return true)])
             init_system in
  pc_of s 1%nat = Some Exited ∧ threads_list s = [0%nat]
  ∧ loops_of s 1%nat = 1%nat ∧ stop_log s = [1%nat]
  ∧ pc_of s 0%nat = Some InLoop.
Proof. repeat split. Qed.

(** A [loop] that raises ends [run] without the thread being removed from
    the registry. *)
Example crashed_thread_stays_registered :
  let s := exec (Demo.two_threads
                 ++ [ActStep 1%nat (Return true);
                     ActStep 1%nat (Raise (OtherError "send"))])
             init_system in
  pc_of s 1%nat = Some (Crashed (OtherError "send"))
  ∧ threads_list s = [0; 1]%nat.
Proof. repeat split. Qed.

(** ** The statistics singleton *)

Lemma constructs_established times r c :
  APRSDStats._instance c = Some r →
  (r < length (APRSDStats.instances c))%nat →
  Forall (λ x, x = r) (fst (APRSDStats.constructs times c))
  ∧ APRSDStats._instance (snd (APRSDStats.constructs times c)) = Some r
  ∧ length (APRSDStats.instances (snd (APRSDStats.constructs times c)))
    = length (APRSDStats.instances c)
  ∧ (∀ t, last times = Some t →
       APRSDStats.instances (snd (APRSDStats.constructs times c)) !! r
       = Some (APRSDStats.StatsObj (Some t))).
Proof.
  revert c. induction times as [|t0 times IH]; intros c Hi Hr.
  - simpl. by repeat split.
  - cbn [APRSDStats.constructs]. unfold APRSDStats.construct, APRSDStats.new.
    rewrite Hi.
    set (c1 := APRSDStats.init r t0 c).
    assert (Hi1 : APRSDStats._instance c1 = Some r) by done.
    assert (Hr1 : (r < length (APRSDStats.instances c1))%nat).
    { unfold c1. simpl. by rewrite length_insert. }
    destruct (IH c1 Hi1 Hr1) as (Hall & Hinst & Hlen & Hlast).
    destruct (APRSDStats.constructs times c1) as [selves c2] eqn:Hrun.
    simpl in *. split; [by constructor|]. split; [done|].
    split; [by rewrite Hlen, length_insert|].
    intros t Ht. destruct times as [|t1 times].
    + injection Ht as <-. injection Hrun as _ <-. simpl.
      by apply list_lookup_insert_eq.
    + by apply Hlast.
Qed.

Lemma length_constructs times c :
  length (fst (APRSDStats.constructs times c)) = length times.
Proof.
  revert c. induction times as [|t0 times IH]; intros c; [done|].
  cbn [APRSDStats.constructs].
  destruct (APRSDStats.construct t0 c) as [self c1].
  specialize (IH c1).
  destruct (APRSDStats.constructs times c1) as [selves c2].
  simpl in *. by rewrite IH.
Qed.

(** C10.  However often [APRSDStats()] is called, every call returns the
    same instance, and only one instance exists; each call runs [__init__]
    again, so that [start_time] is the time of the latest call, and
    [uptime()] and the "uptime" entry of [stats()] are the time elapsed
    since the latest call, not since the first. *)
Theorem stats_singleton_restarts_on_construction
    (times : list Z) (t_last now : Z) :
  let run := APRSDStats.constructs (times ++ [t_last]) APRSDStats.initial in
  ∃ self,
    Forall (λ r, r = self) (fst run)
    ∧ length (fst run) = S (length times)
    ∧ APRSDStats._instance (snd run) = Some self
    ∧ length (APRSDStats.instances (snd run)) = 1%nat
    ∧ APRSDStats.instances (snd run) !! self
      = Some (APRSDStats.StatsObj (Some t_last))
    ∧ APRSDStats.uptime self now (snd run) = Some (now - t_last)
    ∧ (∀ version callsign str_timedelta human_size serializable current
         peak,
         APRSDStats.st_uptime
           <$> APRSDStats.stats version callsign str_timedelta human_size
                 self serializable now current peak (snd run)
         = Some (if serializable
                 then APRSDStats.UptimeStr (str_timedelta (now - t_last))
                 else APRSDStats.UptimeDelta (now - t_last)))
    ∧ (∀ t_first, head (times ++ [t_last]) = Some t_first →
         t_first ≠ t_last →
         APRSDStats.uptime self now (snd run) ≠ Some (now - t_first)).
Proof.
  cbv zeta. exists 0%nat.
  assert (Hlen : length (fst (APRSDStats.constructs (times ++ [t_last])
                                APRSDStats.initial))
                 = S (length times)).
  { rewrite length_constructs, length_app. simpl. lia. }
  assert (Hmain :
    Forall (λ r, r = 0%nat)
      (fst (APRSDStats.constructs (times ++ [t_last]) APRSDStats.initial))
    ∧ APRSDStats._instance
        (snd (APRSDStats.constructs (times ++ [t_last]) APRSDStats.initial))
      = Some 0%nat
    ∧ length (APRSDStats.instances
        (snd (APRSDStats.constructs (times ++ [t_last]) APRSDStats.initial)))
      = 1%nat
    ∧ APRSDStats.instances
        (snd (APRSDStats.constructs (times ++ [t_last]) APRSDStats.initial))
        !! 0%nat
      = Some (APRSDStats.StatsObj (Some t_last))).
  { destruct times as [|t0 times].
    - simpl. by repeat split; try constructor.
    - cbn [app APRSDStats.constructs].
      change (APRSDStats.construct t0 APRSDStats.initial)
        with (0%nat, APRSDStats.Cls (Some 0%nat)
                       [APRSDStats.StatsObj (Some t0)]).
      cbv iota.
      set (c1 := APRSDStats.Cls (Some 0%nat) [APRSDStats.StatsObj (Some t0)]).
      destruct (constructs_established (times ++ [t_last]) 0 c1)
        as (Hall & Hinst & Hl & Hlast); [done|simpl; lia|].
      destruct (APRSDStats.constructs (times ++ [t_last]) c1)
        as [selves c2].
      simpl in *. split; [by constructor|]. split; [done|]. split; [done|].
      apply Hlast. by rewrite last_snoc. }
  destruct Hmain as (Hall & Hinst & Hone & Hobj).
  assert (Hup : ∀ now', APRSDStats.uptime 0
                  (now') (snd (APRSDStats.constructs (times ++ [t_last])
                                APRSDStats.initial))
                = Some (now' - t_last)).
  { intros now'. unfold APRSDStats.uptime. by rewrite Hobj. }
  do 5 (split; [done|]). split; [apply Hup|]. split.
  - intros version callsign str_timedelta human_size serializable current
      peak.
    unfold APRSDStats.stats. rewrite Hup. by destruct serializable.
  - intros t_first _ Hne. rewrite Hup. intros [= Heq]. lia.
Qed.

Lemma stats_singleton_restarts_on_construction_witness :
  let run := APRSDStats.constructs ([0; 10] ++ [25]) APRSDStats.initial in
  fst run = [0; 0; 0]%nat
  ∧ APRSDStats.uptime 0 40 (snd run) = Some 15
  ∧ APRSDStats.uptime 0 40 (snd run) ≠ Some (40 - 0).
Proof.
  destruct (stats_singleton_restarts_on_construction [0; 10] 25 40)
    as (self & Hall & _ & Hinst & _ & _ & Hup & _ & Hfirst).
  injection Hinst as <-.
  split; [reflexivity|]. split; [exact Hup|].
  apply Hfirst; [reflexivity | discriminate].
Defined.

(** ** Worked runs *)

Lemma tx_loop_catches_only_queue_empty_witness :
  APRSDTXThread.loop Demo.send_ok None Demo.w0
  = (Return true, emit (EvTxGet 5) Demo.w0)
  ∧ APRSDTXThread.loop Demo.send_ok
      (Some (TextMessage "MYCALL" "N0CALL" "PONG")) Demo.w0
    = (Return true,
       emit (EvSend (TextMessage "MYCALL" "N0CALL" "PONG"))
         (emit (EvTxGet 5) Demo.w0)).
Proof.
  destruct (tx_loop_catches_only_queue_empty Demo.send_ok Demo.w0)
    as [[Hnone _] Hsome].
  split; [exact Hnone|].
  exact (Hsome (TextMessage "MYCALL" "N0CALL" "PONG")).
Defined.

Lemma connection_drop_is_recovered_witness :
  ∃ w' before,
    APRSDRXThread.loop Demo.cfg Demo.pm_pong
      (ConsumerRun [Demo.ping] (Some ConnectionDrop)) Demo.w0
    = (Return true, w')
    ∧ new_events Demo.w0 w'
      = before ++ [EvLog ERROR "Connection dropped, reconnecting";
                   EvSleep 5; EvClientReset]
    ∧ (EvClientReset ∉ before)
    ∧ (∀ s, EvSleep s ∉ before).
Proof.
  exact (connection_drop_is_recovered Demo.cfg Demo.pm_pong [Demo.ping]
           Demo.w0).
Defined.

(** The end-to-end run of the specification: "ping" with message id "5"
    from N0CALL, answered "PONG" by a plugin. *)
Example ping_pong :
  tx_puts (events (snd (APRSDRXThread.process_packet Demo.cfg Demo.pm_pong
                          Demo.ping Demo.w0)))
  = [AckMessage "MYCALL" "N0CALL" "5"; TextMessage "MYCALL" "N0CALL" "PONG"].
Proof. reflexivity. Qed.

(** A packet for somebody else still goes through the plugins but is
    neither acked nor answered with the usage text. *)
Example packet_for_somebody_else :
  let w := snd (APRSDRXThread.process_packet Demo.cfg Demo.pm_none
                  Demo.other Demo.w0) in
  tx_puts (events w) = [] ∧ pm_calls (events w) = [Demo.other]
  ∧ msgs_rx w = 1%nat.
Proof. repeat split. Qed.

(** An other exception than [ConnectionDrop] leaves the RX loop. *)
Example rx_loop_propagates_other_errors :
  fst (APRSDRXThread.loop Demo.cfg Demo.pm_none
         (ConsumerRun [] (Some (OtherError "parse"))) Demo.w0)
  = Raise (OtherError "parse").
Proof. reflexivity. Qed.

Example watch_list_filter_string :
  new_events Demo.w0
    (snd (APRSDRXThread.loop Demo.cfg_watch Demo.pm_none
            (ConsumerRun [] None) Demo.w0))
  = [EvSetFilter "p/A/B"; EvConsumer].
Proof. reflexivity. Qed.

Example watch_list_empty_warns :
  new_events Demo.w0
    (snd (APRSDRXThread.loop Demo.cfg_watch_empty Demo.pm_none
            (ConsumerRun [] None) Demo.w0))
  = [EvLog WARNING "Watch list enabled, but no callsigns set."; EvConsumer].
Proof. reflexivity. Qed.


(** * Further properties of the code *)

(** ** What the RX worker does with a sequence of packets *)

Lemma msgs_rx_packets_world cfg pm ps w :
  msgs_rx (packets_world cfg pm ps w) = (msgs_rx w + length ps)%nat.
Proof.
  revert w. induction ps as [|p ps IH]; intros w; simpl; [lia|].
  rewrite IH. simpl. lia.
Qed.

Lemma ack_rx_packets_world cfg pm ps w :
  ack_rx (packets_world cfg pm ps w)
  = (ack_rx w
     + length (filter (λ p, addressed_to_us cfg p && ack_marked p = true) ps))%nat.
Proof.
  revert w. induction ps as [|p ps IH]; intros w; simpl; [lia|].
  rewrite IH. simpl.
  destruct (addressed_to_us cfg p && ack_marked p) eqn:Hack.
  - rewrite filter_cons_True by done. simpl. lia.
  - rewrite filter_cons_False by (rewrite Hack; discriminate). lia.
Qed.

Lemma packet_list_adds_app l1 l2 :
  packet_list_adds (l1 ++ l2) = packet_list_adds l1 ++ packet_list_adds l2.
Proof. apply omap_app. Qed.

Lemma packet_list_adds_text_events cfg fromcall texts :
  packet_list_adds (text_events cfg fromcall texts) = [].
Proof. induction texts as [|t texts IH]; [done|]. by simpl. Qed.

Lemma packet_list_adds_packet_events cfg pm p :
  packet_list_adds (packet_events cfg pm p) = [p].
Proof.
  unfold packet_events, dispatch_events.
  destruct (addressed_to_us cfg p), (ack_marked p); cbn [andb];
    try reflexivity.
  all: destruct (pm p) as [results|e];
    rewrite ?packet_list_adds_app, ?packet_list_adds_text_events;
    try destruct (bool_decide (results = []));
    simpl; reflexivity.
Qed.

Lemma packet_list_adds_packets_events cfg pm ps :
  packet_list_adds (concat (map (packet_events cfg pm) ps)) = ps.
Proof.
  induction ps as [|p ps IH]; [done|].
  cbn [map concat].
  by rewrite packet_list_adds_app, IH, packet_list_adds_packet_events.
Qed.

(** X1.  Every packet the consumer hands over is passed on and counted,
    acks included: [PacketList().add] is called with each packet, in
    arrival order, [msgs_rx] grows by the number of packets, and [ack_rx]
    by the number of those marked "ack" and addressed to the daemon. *)
Theorem every_packet_is_counted
    (cfg : config) (pm : packet → result (list reply))
    (ps : list packet) (w : world) :
  let w' := snd (APRSDRXThread.process_packets cfg pm ps w) in
  packet_list_adds (new_events w w') = ps
  ∧ msgs_rx w' = (msgs_rx w + length ps)%nat
  ∧ ack_rx w'
    = (ack_rx w
       + length (filter (λ p, addressed_to_us cfg p && ack_marked p = true)
                   ps))%nat.
Proof.
  cbv zeta. rewrite process_packets_run. cbn [snd].
  rewrite (new_events_app _ _ _ (events_packets_world cfg pm ps w)).
  split; [apply packet_list_adds_packets_events|].
  split; [apply msgs_rx_packets_world | apply ack_rx_packets_world].
Qed.

(** X2.  The plugin manager is run on every packet except the acks addressed
    to the daemon, once each and in arrival order, whatever the plugins
    return or raise on the packets before. *)
Theorem plugins_see_packets_in_arrival_order
    (cfg : config) (pm : packet → result (list reply))
    (ps : list packet) (w : world) :
  pm_calls (new_events w
              (snd (APRSDRXThread.process_packets cfg pm ps w)))
  = filter (λ p, addressed_to_us cfg p && ack_marked p = false) ps.
Proof.
  rewrite process_packets_run. cbn [snd].
  rewrite (new_events_app _ _ _ (events_packets_world cfg pm ps w)).
  apply pm_calls_packets_events.
Qed.

(** X3.  A packet marked "ack" that is addressed to somebody else is not taken
    as an acknowledgement: the tracker and [ack_rx] stay as they were, the
    packet goes to the plugins, and it is not acked. *)
Theorem ack_for_somebody_else_is_content
    (cfg : config) (pm : packet → result (list reply)) (p : packet)
    (w : world) :
  pkt_response p = Some "ack" →
  pkt_addresse p ≠ Some (aprs_login cfg) →
  ∃ w', APRSDRXThread.process_packet cfg pm p w = (Return tt, w')
    ∧ track w' = track w
    ∧ ack_rx w' = ack_rx w
    ∧ pm_calls (new_events w w') = [p]
    ∧ filter (λ m, is_ack_message m = true) (tx_puts (new_events w w')) = [].
Proof.
  intros Hack Hto. exists (packet_world cfg pm p w).
  split; [apply process_packet_run|].
  pose proof (not_addressed_to_us cfg p Hto) as Hus.
  rewrite new_events_packet_world, pm_calls_packet_events,
    tx_puts_packet_events.
  unfold packet_world. rewrite Hus. cbn [andb app].
  do 3 (split; [reflexivity|]).
  destruct (pm p) as [results|e]; [|reflexivity].
  rewrite app_nil_r.
  induction (reply_texts results) as [|t ts IH]; [done|].
  cbn [map]. by rewrite filter_cons_False by (simpl; congruence).
Qed.

Lemma ack_for_somebody_else_is_content_witness :
  ∃ w', APRSDRXThread.process_packet Demo.cfg Demo.pm_pong
          Runs.ack_for_other Demo.tracked = (Return tt, w')
    ∧ track w' = track Demo.tracked
    ∧ ack_rx w' = ack_rx Demo.tracked
    ∧ pm_calls (new_events Demo.tracked w') = [Runs.ack_for_other]
    ∧ filter (λ m, is_ack_message m = true)
        (tx_puts (new_events Demo.tracked w')) = [].
Proof.
  apply (ack_for_somebody_else_is_content Demo.cfg Demo.pm_pong
           Runs.ack_for_other Demo.tracked); [reflexivity | discriminate].
Defined.

Lemma tx_puts_of_packet_addressing cfg pm p :
  Forall (λ m, msg_fromcall m = aprs_login cfg ∧ msg_tocall m = pkt_from p)
    (tx_puts (packet_events cfg pm p)).
Proof.
  assert (Htexts : ∀ texts,
            Forall (λ m, msg_fromcall m = aprs_login cfg
                         ∧ msg_tocall m = pkt_from p)
              (map (TextMessage (aprs_login cfg) (pkt_from p)) texts)).
  { induction texts as [|t texts IH]; by constructor. }
  rewrite tx_puts_packet_events.
  destruct (addressed_to_us cfg p), (ack_marked p), (pm p) as [results|e];
    try destruct (bool_decide (results = [])); cbn [andb];
    repeat first
      [ apply Htexts
      | apply Forall_nil_2
      | apply Forall_cons_2; [by split|]
      | apply Forall_app; split ].
Qed.

Lemma acks_of_packet cfg pm p :
  filter (λ m, is_ack_message m = true) (tx_puts (packet_events cfg pm p))
  = if addressed_to_us cfg p && negb (ack_marked p) then [ack_for cfg p]
    else [].
Proof.
  assert (Htexts : ∀ texts rest,
            filter (λ m, is_ack_message m = true)
              (map (TextMessage (aprs_login cfg) (pkt_from p)) texts ++ rest)
            = filter (λ m, is_ack_message m = true) rest).
  { induction texts as [|t texts IH]; intros rest; [done|].
    cbn [map app]. rewrite filter_cons_False by (simpl; congruence).
    apply IH. }
  rewrite tx_puts_packet_events.
  destruct (addressed_to_us cfg p), (ack_marked p); cbn [andb negb app];
    try reflexivity.
  - rewrite filter_cons_True by done. f_equal.
    destruct (pm p) as [results|e]; [|reflexivity].
    rewrite Htexts. by destruct (bool_decide (results = [])).
  - destruct (pm p) as [results|e]; [|reflexivity]. by rewrite Htexts.
  - destruct (pm p) as [results|e]; [|reflexivity]. by rewrite Htexts.
Qed.

(** X4.  Everything the RX worker puts on the tx queue is sent in the name of
    the daemon's callsign to the sender of a packet it received.  The acks
    among it are exactly one ack per packet that is addressed to the
    daemon and not itself marked "ack", in arrival order. *)
Theorem outbound_messages_answer_senders
    (cfg : config) (pm : packet → result (list reply))
    (ps : list packet) (w : world) :
  let puts :=
    tx_puts (new_events w
               (snd (APRSDRXThread.process_packets cfg pm ps w))) in
  Forall (λ m, msg_fromcall m = aprs_login cfg
               ∧ ∃ p, p ∈ ps ∧ msg_tocall m = pkt_from p) puts
  ∧ filter (λ m, is_ack_message m = true) puts
    = map (ack_for cfg)
        (filter (λ p, addressed_to_us cfg p && negb (ack_marked p) = true)
           ps).
Proof.
  cbv zeta. rewrite process_packets_run. cbn [snd].
  rewrite (new_events_app _ _ _ (events_packets_world cfg pm ps w)).
  clear w. induction ps as [|p ps [IH1 IH2]]; [by split; [constructor|]|].
  cbn [map concat]. rewrite tx_puts_app. split.
  - apply Forall_app. split.
    + eapply Forall_impl; [apply tx_puts_of_packet_addressing|].
      intros m [Hf Ht]. split; [done|]. exists p. split; [left|done].
    + eapply Forall_impl; [exact IH1|].
      intros m [Hf (q & Hq & Ht)]. split; [done|].
      exists q. split; [by right|done].
  - rewrite filter_app, IH2, acks_of_packet.
    destruct (addressed_to_us cfg p && negb (ack_marked p)) eqn:Hp.
    + by rewrite filter_cons_True by done.
    + by rewrite filter_cons_False by (rewrite Hp; discriminate).
Qed.

(** X5.  A packet addressed to somebody else is neither acked nor answered
    with the usage text or the error notice; the texts its plugins return
    are still sent to its sender. *)
Theorem packet_for_somebody_else_gets_plugin_texts_only
    (cfg : config) (pm : packet → result (list reply)) (p : packet)
    (w : world) :
  pkt_addresse p ≠ Some (aprs_login cfg) →
  tx_puts (new_events w (snd (APRSDRXThread.process_packet cfg pm p w)))
  = match pm p with
    | Return results =>
        map (TextMessage (aprs_login cfg) (pkt_from p)) (reply_texts results)
    | Raise _ => []
    end.
Proof.
  intros Hto. rewrite process_packet_run. cbn [snd].
  rewrite new_events_packet_world, tx_puts_packet_events,
    (not_addressed_to_us cfg p Hto).
  cbn [andb app]. destruct (pm p); [by rewrite app_nil_r|done].
Qed.

Lemma packet_for_somebody_else_gets_plugin_texts_only_witness :
  tx_puts (new_events Demo.w0
             (snd (APRSDRXThread.process_packet Demo.cfg Demo.pm_pong
                     Demo.other Demo.w0)))
  = map (TextMessage "MYCALL" "N0CALL") (reply_texts [ReplyText "PONG"]).
Proof.
  apply (packet_for_somebody_else_gets_plugin_texts_only Demo.cfg
           Demo.pm_pong Demo.other Demo.w0).
  discriminate.
Defined.

(** ** Iterations of the RX loop *)

Lemma events_loop cfg pm c w :
  events (snd (APRSDRXThread.loop cfg pm c w))
  = events w ++ loop_events cfg pm c.
Proof.
  rewrite loop_run. cbv zeta. unfold loop_events, dropped.
  destruct (ending c) as [e|]; [destruct (is_ConnectionDrop e)|];
    cbn [snd].
  - unfold emits at 1. cbn [events].
    by rewrite events_loop_world, <- !app_assoc.
  - by rewrite events_loop_world, app_nil_r.
  - by rewrite events_loop_world, app_nil_r.
Qed.

Lemma resets_app l1 l2 : resets (l1 ++ l2) = (resets l1 + resets l2)%nat.
Proof. unfold resets. by rewrite omap_app, length_app. Qed.

Lemma slept_app l1 l2 : slept (l1 ++ l2) = slept l1 + slept l2.
Proof.
  induction l1 as [|e l1 IH]; [done|].
  simpl. destruct e; rewrite ?IH; lia.
Qed.

Lemma filters_app l1 l2 : filters (l1 ++ l2) = filters l1 ++ filters l2.
Proof. apply omap_app. Qed.

(** Processing packets neither sleeps, nor resets the client, nor sets a
    filter. *)
Lemma packets_events_quiet cfg pm ps :
  resets (concat (map (packet_events cfg pm) ps)) = 0%nat
  ∧ slept (concat (map (packet_events cfg pm) ps)) = 0
  ∧ filters (concat (map (packet_events cfg pm) ps)) = [].
Proof.
  pose proof (packets_events_kind cfg pm ps) as Hk.
  induction Hk as [|e l He _ IH]; [done|].
  destruct IH as (IH1 & IH2 & IH3).
  destruct e; try discriminate He; by repeat split.
Qed.

Lemma watch_list_events_quiet cfg :
  resets (watch_list_events cfg) = 0%nat ∧ slept (watch_list_events cfg) = 0.
Proof.
  pose proof (watch_list_events_kind cfg) as Hk.
  induction Hk as [|e l He _ [IH1 IH2]]; [done|].
  destruct e; try done.
Qed.

Lemma loop_events_quiet cfg pm c :
  resets (loop_events cfg pm c) = (if dropped c then 1 else 0)%nat
  ∧ slept (loop_events cfg pm c) = (if dropped c then 5 else 0)
  ∧ filters (loop_events cfg pm c) = filters (watch_list_events cfg).
Proof.
  unfold loop_events.
  destruct (packets_events_quiet cfg pm (delivered c)) as (Hr & Hs & Hf).
  destruct (watch_list_events_quiet cfg) as [Hwr Hws].
  rewrite !resets_app, !slept_app, !filters_app, Hr, Hs, Hf, Hwr, Hws.
  destruct (dropped c); simpl; by rewrite ?app_nil_r.
Qed.

Lemma pm_calls_loop_events cfg pm c :
  pm_calls (loop_events cfg pm c)
  = filter (λ p, addressed_to_us cfg p && ack_marked p = false) (delivered c).
Proof.
  unfold loop_events.
  rewrite !pm_calls_app, pm_calls_watch_list_events, pm_calls_packets_events.
  destruct (dropped c); simpl; by rewrite app_nil_r.
Qed.

Lemma tx_puts_loop_events cfg pm c :
  tx_puts (loop_events cfg pm c)
  = tx_puts (concat (map (packet_events cfg pm) (delivered c))).
Proof.
  unfold loop_events. rewrite !tx_puts_app.
  assert (Hw : tx_puts (watch_list_events cfg) = []).
  { pose proof (watch_list_events_kind cfg) as Hk.
    induction Hk as [|e l He _ IH]; [done|]. by destruct e. }
  rewrite Hw. destruct (dropped c); simpl; by rewrite app_nil_r.
Qed.

(** X6.  An exception of the consumer other than [ConnectionDrop] leaves
    [loop]: the packets delivered before it have been processed (the
    plugin manager has been run on them and their answers have been put
    on the tx queue, as by [process_packet]), and [loop] has neither slept
    nor reset the client. *)
Theorem rx_loop_lets_other_errors_escape
    (cfg : config) (pm : packet → result (list reply))
    (ps : list packet) (e : exn) (w : world) :
  e ≠ ConnectionDrop →
  ∃ w', APRSDRXThread.loop cfg pm (ConsumerRun ps (Some e)) w
        = (Raise e, w')
    ∧ pm_calls (new_events w w')
      = filter (λ p, addressed_to_us cfg p && ack_marked p = false) ps
    ∧ tx_puts (new_events w w')
      = tx_puts (new_events w
                   (snd (APRSDRXThread.process_packets cfg pm ps w)))
    ∧ resets (new_events w w') = 0%nat
    ∧ slept (new_events w w') = 0.
Proof.
  intros He.
  pose proof (events_loop cfg pm (ConsumerRun ps (Some e)) w) as Hev.
  pose proof (loop_events_quiet cfg pm (ConsumerRun ps (Some e)))
    as (Hr & Hs & _).
  pose proof (pm_calls_loop_events cfg pm (ConsumerRun ps (Some e))) as Hpm.
  pose proof (tx_puts_loop_events cfg pm (ConsumerRun ps (Some e))) as Htx.
  revert Hev Hr Hs Hpm Htx. rewrite loop_run. cbv zeta.
  unfold dropped. cbn [ending delivered]. unfold is_ConnectionDrop.
  rewrite (bool_decide_eq_false_2 _ He). cbn [snd].
  intros Hev Hr Hs Hpm Htx. eexists. split; [reflexivity|].
  rewrite (new_events_app _ _ _ Hev), process_packets_run. cbn [snd].
  by rewrite (new_events_app _ _ _ (events_packets_world cfg pm ps w)).
Qed.

Lemma rx_loop_lets_other_errors_escape_witness :
  ∃ w', APRSDRXThread.loop Demo.cfg Demo.pm_pong
          (ConsumerRun [Demo.ping] (Some (OtherError "parse"))) Demo.w0
        = (Raise (OtherError "parse"), w')
    ∧ pm_calls (new_events Demo.w0 w')
      = filter (λ p, addressed_to_us Demo.cfg p && ack_marked p = false)
          [Demo.ping]
    ∧ tx_puts (new_events Demo.w0 w')
      = tx_puts (new_events Demo.w0
                   (snd (APRSDRXThread.process_packets Demo.cfg Demo.pm_pong
                           [Demo.ping] Demo.w0)))
    ∧ resets (new_events Demo.w0 w') = 0%nat
    ∧ slept (new_events Demo.w0 w') = 0.
Proof.
  apply (rx_loop_lets_other_errors_escape Demo.cfg Demo.pm_pong [Demo.ping]
           (OtherError "parse") Demo.w0).
  discriminate.
Defined.

Lemma loop_recoverable cfg pm c w :
  recoverable c = true → fst (APRSDRXThread.loop cfg pm c w) = Return true.
Proof.
  rewrite loop_run. cbv zeta. unfold recoverable.
  destruct (ending c) as [e|]; [|done]. by intros ->.
Qed.

Lemma rx_run_world cfg pm cs w :
  Forall (λ c, recoverable c = true) cs →
  ∃ w', rx_run cfg pm cs w = (Return tt, w')
    ∧ events w' = events w ++ concat (map (loop_events cfg pm) cs).
Proof.
  intros Hcs. revert w.
  induction Hcs as [|c cs Hc _ IH]; intros w.
  - exists w. by rewrite !app_nil_r.
  - cbn [rx_run]. unfold bind.
    pose proof (loop_recoverable cfg pm c w Hc) as Hret.
    pose proof (events_loop cfg pm c w) as Hev.
    destruct (APRSDRXThread.loop cfg pm c w) as [r w1].
    cbn [fst snd] in *. subst r.
    destruct (IH w1) as (w' & Hrun & Hev').
    exists w'. split; [done|]. cbn [map concat].
    rewrite Hev', Hev. by rewrite <- !app_assoc.
Qed.

(** X7.  Iterations of the RX loop whose consumer returns or drops the
    connection all return true.  No packet is lost over a drop: the plugin
    manager is run on the packets of all iterations in arrival order, and
    they are answered as if they had come in one call.  The client is
    reset once and the thread sleeps five seconds per drop, and the
    watch-list filter is set anew in every iteration. *)
Theorem rx_run_survives_connection_drops
    (cfg : config) (pm : packet → result (list reply))
    (cs : list consumer_run) (w : world) :
  Forall (λ c, recoverable c = true) cs →
  ∃ w', rx_run cfg pm cs w = (Return tt, w')
    ∧ pm_calls (new_events w w')
      = filter (λ p, addressed_to_us cfg p && ack_marked p = false)
          (concat (map delivered cs))
    ∧ tx_puts (new_events w w')
      = tx_puts (new_events w
                   (snd (APRSDRXThread.process_packets cfg pm
                           (concat (map delivered cs)) w)))
    ∧ resets (new_events w w')
      = length (filter (λ c, dropped c = true) cs)
    ∧ slept (new_events w w')
      = 5 * Z.of_nat (length (filter (λ c, dropped c = true) cs))
    ∧ filters (new_events w w')
      = concat (replicate (length cs) (filters (watch_list_events cfg))).
Proof.
  intros Hcs.
  destruct (rx_run_world cfg pm cs w Hcs) as (w' & Hrun & Hev).
  exists w'. split; [done|].
  rewrite (new_events_app _ _ _ Hev).
  rewrite process_packets_run. cbn [snd].
  rewrite (new_events_app _ _ _
             (events_packets_world cfg pm (concat (map delivered cs)) w)).
  clear. induction cs as [|c cs (IH0 & IH1 & IH2 & IH3 & IH4)]; [done|].
  cbn [map concat length replicate].
  rewrite map_app, concat_app, !tx_puts_app, pm_calls_app, resets_app,
    slept_app, filters_app, filter_app, IH0, IH1, IH2, IH3, IH4,
    tx_puts_loop_events, pm_calls_loop_events.
  destruct (loop_events_quiet cfg pm c) as (-> & -> & ->).
  split; [done|]. split; [done|]. split; [|split; [|done]].
  - destruct (dropped c) eqn:Hd.
    + by rewrite filter_cons_True by done.
    + by rewrite filter_cons_False by (rewrite Hd; discriminate).
  - destruct (dropped c) eqn:Hd.
    + rewrite filter_cons_True by done. cbn [length]. lia.
    + rewrite filter_cons_False by (rewrite Hd; discriminate). lia.
Qed.

Lemma rx_run_survives_connection_drops_witness :
  ∃ w', rx_run Demo.cfg_watch Demo.pm_pong Runs.drop_then_ping Demo.tracked
        = (Return tt, w')
    ∧ pm_calls (new_events Demo.tracked w')
      = filter (λ p, addressed_to_us Demo.cfg_watch p && ack_marked p = false)
          (concat (map delivered Runs.drop_then_ping))
    ∧ tx_puts (new_events Demo.tracked w')
      = tx_puts (new_events Demo.tracked
                   (snd (APRSDRXThread.process_packets Demo.cfg_watch
                           Demo.pm_pong
                           (concat (map delivered Runs.drop_then_ping))
                           Demo.tracked)))
    ∧ resets (new_events Demo.tracked w')
      = length (filter (λ c, dropped c = true) Runs.drop_then_ping)
    ∧ slept (new_events Demo.tracked w')
      = 5 * Z.of_nat (length (filter (λ c, dropped c = true)
                                Runs.drop_then_ping))
    ∧ filters (new_events Demo.tracked w')
      = concat (replicate (length Runs.drop_then_ping)
                  (filters (watch_list_events Demo.cfg_watch))).
Proof.
  apply (rx_run_survives_connection_drops Demo.cfg_watch Demo.pm_pong
           Runs.drop_then_ping Demo.tracked).
  repeat constructor.
Defined.

Example rx_run_on_drop_then_ping :
  let w' := snd (rx_run Demo.cfg_watch Demo.pm_pong Runs.drop_then_ping
                   Demo.tracked) in
  filters (events w') = ["p/A/B"; "p/A/B"]
  ∧ resets (events w') = 1%nat ∧ slept (events w') = 5
  ∧ tx_puts (events w')
    = [AckMessage "MYCALL" "N0CALL" "5"; TextMessage "MYCALL" "N0CALL" "PONG";
       TextMessage "MYCALL" "N0CALL" "PONG"]
  ∧ ack_rx w' = 1%nat ∧ msgs_rx w' = 3%nat.
Proof. repeat split. Qed.

(** ** Iterations of the TX loop *)

Lemma sends_app l1 l2 : sends (l1 ++ l2) = sends l1 ++ sends l2.
Proof. apply omap_app. Qed.

Lemma tx_loop_world (send : message → M unit) got w :
  (∀ m w0, ∃ r w1 l, send m w0 = (r, w1) ∧ events w1 = events w0 ++ l
                     ∧ sends l = []
                     ∧ (r = Return tt ∨ r = Raise QueueEmpty)) →
  ∃ w1 l, APRSDTXThread.loop send got w = (Return true, w1)
    ∧ events w1 = events w ++ l
    ∧ sends l = match got with Some m => [m] | None => [] end.
Proof.
  intros Hsend. destruct got as [m|].
  - cbv beta iota delta
      [APRSDTXThread.loop APRSDTXThread.tx_get APRSDTXThread.msg_send
       bind ret raise try_except effect].
    destruct (Hsend m (emit (EvSend m) (emit (EvTxGet 5) w)))
      as (r & w1 & l & -> & Hev & Hl & Hr).
    exists w1, ([EvTxGet 5; EvSend m] ++ l). split; [|split].
    + by destruct Hr as [-> | ->].
    + rewrite Hev. simpl. by rewrite <- !app_assoc.
    + rewrite sends_app, Hl. reflexivity.
  - exists (emit (EvTxGet 5) w), [EvTxGet 5]. by repeat split.
Qed.

(** X8.  When [send] returns (or raises [queue.Empty]) and does not itself
    go through the TX loop, the TX thread calls [send] on exactly the
    items that [get] hands over, once each and in the order [get] hands
    them over, and on nothing for a timeout. *)
Theorem tx_run_sends_what_get_hands_over
    (send : message → M unit) (gots : list (option message)) (w : world) :
  (∀ m w0, ∃ r w1 l, send m w0 = (r, w1) ∧ events w1 = events w0 ++ l
                     ∧ sends l = []
                     ∧ (r = Return tt ∨ r = Raise QueueEmpty)) →
  ∃ w', tx_run send gots w = (Return tt, w')
    ∧ sends (new_events w w') = omap id gots.
Proof.
  intros Hsend.
  assert (Hmain : ∃ w' l, tx_run send gots w = (Return tt, w')
                    ∧ events w' = events w ++ l
                    ∧ sends l = omap id gots).
  { revert w. induction gots as [|got gots IH]; intros w.
    - exists w, []. by rewrite app_nil_r.
    - cbn [tx_run]. unfold bind.
      destruct (tx_loop_world send got w Hsend) as (w1 & l1 & -> & Hev1 & Hl1).
      destruct (IH w1) as (w' & l2 & -> & Hev2 & Hl2).
      exists w', (l1 ++ l2). split; [done|]. split.
      + by rewrite Hev2, Hev1, <- app_assoc.
      + rewrite sends_app, Hl1, Hl2. by destruct got. }
  destruct Hmain as (w' & l & Hrun & Hev & Hl).
  exists w'. split; [done|]. by rewrite (new_events_app _ _ _ Hev).
Qed.

Lemma tx_run_sends_what_get_hands_over_witness :
  ∃ w', tx_run Demo.send_ok
          [Some (AckMessage "MYCALL" "N0CALL" "5"); None;
           Some (TextMessage "MYCALL" "N0CALL" "PONG")] Demo.w0
        = (Return tt, w')
    ∧ sends (new_events Demo.w0 w')
      = omap id [Some (AckMessage "MYCALL" "N0CALL" "5"); None;
                 Some (TextMessage "MYCALL" "N0CALL" "PONG")].
Proof.
  apply (tx_run_sends_what_get_hands_over Demo.send_ok).
  intros m w0. exists (Return tt), w0, []. rewrite app_nil_r.
  split; [reflexivity|]. split; [reflexivity|].
  split; [reflexivity|by left].
Defined.

(** X9.  A [send] that raises anything but [queue.Empty] ends the iterations of
    the TX thread at once: the exception leaves [run], and the items still
    in the queue are never taken. *)
Theorem tx_run_stops_at_failing_send
    (send : message → M unit) (msg : message) (e : exn)
    (rest : list (option message)) (w w' : world) :
  send msg (emit (EvSend msg) (emit (EvTxGet 5) w)) = (Raise e, w') →
  e ≠ QueueEmpty →
  tx_run send (Some msg :: rest) w = (Raise e, w').
Proof.
  intros Hsend He. cbn [tx_run].
  cbv beta iota delta
    [APRSDTXThread.loop APRSDTXThread.tx_get APRSDTXThread.msg_send
     bind ret raise try_except effect is_QueueEmpty].
  rewrite Hsend. by rewrite (bool_decide_eq_false_2 _ He).
Qed.

Lemma tx_run_stops_at_failing_send_witness :
  tx_run Demo.send_fails
    [Some (TextMessage "MYCALL" "N0CALL" "PONG");
     Some (TextMessage "MYCALL" "K1ABC" "72F")] Demo.w0
  = (Raise (OtherError "send"),
     emit (EvSend (TextMessage "MYCALL" "N0CALL" "PONG"))
       (emit (EvTxGet 5) Demo.w0)).
Proof.
  apply (tx_run_stops_at_failing_send Demo.send_fails
           (TextMessage "MYCALL" "N0CALL" "PONG") (OtherError "send")
           [Some (TextMessage "MYCALL" "K1ABC" "72F")] Demo.w0);
    [reflexivity | discriminate].
Defined.

(** ** The registry and the life of a thread *)

(** X10.  In every state the thread system can reach, the registry lists no
    thread twice, and lists exactly the threads that have been created and
    whose [run] has not returned, crashed threads included. *)
Theorem registry_lists_the_live_threads (sched : list action) :
  let s := exec sched init_system in
  NoDup (threads_list s)
  ∧ ∀ t, t ∈ threads_list s
         ↔ ∃ p, pc_of s t = Some p ∧ p ≠ Exited.
Proof.
  cbv zeta.
  destruct (registry_inv_exec sched init_system registry_inv_init)
    as [Hnd Hiff].
  split; [done|]. intros t. rewrite Hiff. unfold pc_of. split.
  - intros (o & -> & Hpc). by eexists.
  - intros (p & Hp & Hne).
    destruct (objects (exec sched init_system) !! t) as [o|]; [|done].
    exists o. split; [done|]. by injection Hp as ->.
Qed.

Lemma stopped_run_step t out s :
  stopped s t = Some true →
  stopped (APRSDThread.run_step t out s) t = Some true.
Proof.
  unfold stopped, APRSDThread.run_step.
  destruct (objects s !! t) as [o|] eqn:Ht; [|done].
  intros [= Hstop].
  assert (Hsome : is_Some (objects s !! t)) by (by eexists).
  assert (Hlt : (t < length (objects s))%nat) by (by eapply lookup_lt_Some).
  destruct (th_pc o) as [| |can_loop| | |e];
    try (rewrite Ht; simpl; congruence).
  - rewrite Hstop, lookup_set_obj, bool_decide_eq_true_2 by done.
    simpl. congruence.
  - destruct out; rewrite lookup_set_obj, bool_decide_eq_true_2 by done;
      simpl; congruence.
  - cbv zeta. destruct can_loop.
    + rewrite Ht, lookup_set_obj, bool_decide_eq_true_2 by done.
      simpl. congruence.
    + assert (Hs : objects (stop t s) !! t = Some (set_thread_stop o)).
      { rewrite lookup_stop, Ht. simpl. by rewrite bool_decide_eq_true_2. }
      by rewrite Hs, lookup_set_obj, bool_decide_eq_true_2
        by (done || by eexists).
  - unfold APRSDThreadList.remove.
    destruct (APRSDThreadList.list_remove t (threads_list s)); simpl;
      rewrite list_lookup_insert_eq by done; simpl; congruence.
Qed.

Lemma stopped_step a s t :
  stopped s t = Some true → stopped (step a s) t = Some true.
Proof.
  intros Hstop. destruct (is_step_of t a) eqn:Ha.
  - destruct a as [|t' out| |]; try done. simpl in Ha.
    apply bool_decide_eq_true in Ha as ->. by apply stopped_run_step.
  - unfold stopped in *.
    destruct (objects s !! t) as [o|] eqn:Ht; [|done].
    injection Hstop as Hstop.
    destruct (frame_step a s t o Ha Ht) as (o' & -> & _ & _ & Hflag).
    simpl. by rewrite Hflag.
Qed.

(** X11.  Nothing ever clears a stop flag: once a thread's flag is set it stays
    set through every step of any thread, every [stop], every [stop_all]
    and every creation of a thread. *)
Theorem stop_flag_is_never_cleared
    (s : system) (t : tid) (sched : list action) :
  stopped s t = Some true → stopped (exec sched s) t = Some true.
Proof.
  revert s. induction sched as [|a sched IH]; intros s Hs; [done|].
  apply IH. by apply stopped_step.
Qed.

Lemma stop_flag_is_never_cleared_witness :
  stopped (exec [ActStep 1%nat (Return true); ActInit "KeepAlive" false;
                 ActStep 1%nat (Return true)]
             (stop 1%nat (exec Demo.two_threads init_system))) 1%nat
  = Some true.
Proof.
  apply (stop_flag_is_never_cleared
           (stop 1%nat (exec Demo.two_threads init_system)) 1%nat).
  reflexivity.
Defined.

Lemma crashed_step a s t e :
  pc_of s t = Some (Crashed e) → pc_of (step a s) t = Some (Crashed e).
Proof.
  unfold pc_of. intros Hpc.
  destruct (objects s !! t) as [o|] eqn:Ht; [|done].
  injection Hpc as Hpc. destruct (is_step_of t a) eqn:Ha.
  - destruct a as [|t' out| |]; try done. simpl in Ha.
    apply bool_decide_eq_true in Ha as ->. simpl.
    unfold APRSDThread.run_step. rewrite Ht, Hpc, Ht. simpl. by rewrite Hpc.
  - destruct (frame_step a s t o Ha Ht) as (o' & -> & Hpc' & _).
    simpl. congruence.
Qed.

Lemma pc_of_created a s t :
  objects s !! t = None → is_step_of t a = false →
  pc_of (step a s) t = None ∨ pc_of (step a s) t = Some AtWhile.
Proof.
  intros Ht Ha. unfold pc_of.
  destruct a as [name is_rx|t' out|t'|]; simpl in *.
  - apply lookup_ge_None in Ht.
    destruct (decide (t = length (objects s))) as [->|Hne].
    + right. rewrite lookup_app_r by done. by rewrite Nat.sub_diag.
    + left. rewrite (proj2 (lookup_ge_None _ _)); [done|].
      rewrite length_app. simpl. lia.
  - left. rewrite lookup_run_step_ne, Ht; [done|].
    intros ->. by rewrite bool_decide_eq_true_2 in Ha.
  - left. by rewrite lookup_stop, Ht.
  - left. destruct (foldl_stop (threads_list s) s) as (_ & Ho & _).
    unfold APRSDThreadList.stop_all. by rewrite Ho, Ht.
Qed.

Lemma crash_origin a s t e :
  registry_inv s →
  pc_of (step a s) t = Some (Crashed e) →
  pc_of s t = Some (Crashed e) ∨ a = ActStep t (Raise e).
Proof.
  intros Hinv Hpc. destruct (is_step_of t a) eqn:Ha.
  - destruct a as [|t' out| |]; try done. simpl in Ha.
    apply bool_decide_eq_true in Ha as ->.
    revert Hpc. unfold pc_of. simpl. unfold APRSDThread.run_step.
    destruct (objects s !! t) as [o|] eqn:Ht; [|by rewrite Ht].
    assert (Hsome : is_Some (objects s !! t)) by (by eexists).
    assert (Hlt : (t < length (objects s))%nat)
      by (by eapply lookup_lt_Some).
    destruct (th_pc o) as [| |can_loop| | |e'] eqn:Hpco.
    + destruct (thread_stop o);
        rewrite lookup_set_obj, bool_decide_eq_true_2 by done; done.
    + destruct out as [b|e'];
        rewrite lookup_set_obj, bool_decide_eq_true_2 by done; simpl;
        [done|]. intros [= ->]. by right.
    + cbv zeta. destruct can_loop.
      * by rewrite Ht, lookup_set_obj, bool_decide_eq_true_2 by done.
      * assert (Hs : objects (stop t s) !! t = Some (set_thread_stop o)).
        { rewrite lookup_stop, Ht. simpl.
          by rewrite bool_decide_eq_true_2. }
        by rewrite Hs, lookup_set_obj, bool_decide_eq_true_2
          by (done || by eexists).
    + destruct Hinv as [_ Hiff].
      assert (Hin : t ∈ threads_list s).
      { apply Hiff. exists o. by rewrite Hpco. }
      unfold APRSDThreadList.remove.
      destruct (list_remove_elem t _ Hin) as [l' ->]. simpl.
      by rewrite list_lookup_insert_eq by done.
    + rewrite Ht. simpl. by rewrite Hpco.
    + rewrite Ht. simpl. rewrite Hpco. intros [= ->]. by left.
  - left. destruct (objects s !! t) as [o|] eqn:Ht.
    + destruct (frame_step a s t o Ha Ht) as (o' & Ho' & Hpc' & _).
      unfold pc_of in *. rewrite Ho' in Hpc. rewrite Ht. simpl in *.
      congruence.
    + destruct (pc_of_created a s t Ht Ha) as [H|H]; congruence.
Qed.

Lemma exec_snoc sched a s : exec (sched ++ [a]) s = step a (exec sched s).
Proof. unfold exec. by rewrite foldl_app. Qed.

(** X12.  A thread ends crashed only because its own [loop] raised, with the
    exception [loop] raised: removing itself from the registry never
    fails.  A crashed thread stays crashed and is never taken out of the
    registry, whatever happens afterwards. *)
Theorem crashed_thread_is_never_unregistered
    (sched : list action) (t : tid) (e : exn) :
  pc_of (exec sched init_system) t = Some (Crashed e) →
  ActStep t (Raise e) ∈ sched
  ∧ ∀ sched',
      pc_of (exec sched' (exec sched init_system)) t = Some (Crashed e)
      ∧ t ∈ threads_list (exec sched' (exec sched init_system)).
Proof.
  intros Hpc. split.
  - revert Hpc. induction sched as [|a sched IH] using rev_ind; [done|].
    rewrite exec_snoc. intros Hpc.
    pose proof (registry_inv_exec sched init_system registry_inv_init)
      as Hinv.
    destruct (crash_origin a _ t e Hinv Hpc) as [Hbefore| ->].
    + apply elem_of_app. left. by apply IH.
    + apply elem_of_app. right. by left.
  - intros sched'.
    assert (Hstay : pc_of (exec sched' (exec sched init_system)) t
                    = Some (Crashed e)).
    { revert Hpc. generalize (exec sched init_system).
      induction sched' as [|a sched' IH]; intros s Hs; [done|].
      apply IH. by apply crashed_step. }
    split; [done|].
    pose proof (registry_inv_exec sched' _
                  (registry_inv_exec sched init_system registry_inv_init))
      as [_ Hiff].
    apply Hiff. unfold pc_of in Hstay.
    destruct (objects (exec sched' (exec sched init_system)) !! t)
      as [o|]; [|done].
    exists o. split; [done|]. injection Hstay as ->. done.
Qed.

Lemma crashed_thread_is_never_unregistered_witness :
  ActStep 1%nat (Raise (OtherError "send"))
  ∈ Demo.two_threads ++ [ActStep 1%nat (Return true);
                         ActStep 1%nat (Raise (OtherError "send"))]
  ∧ pc_of (exec [ActStopAll; ActStep 1%nat (Return true)]
             (exec (Demo.two_threads
                    ++ [ActStep 1%nat (Return true);
                        ActStep 1%nat (Raise (OtherError "send"))])
                init_system)) 1%nat
    = Some (Crashed (OtherError "send"))
  ∧ 1%nat ∈ threads_list
      (exec [ActStopAll; ActStep 1%nat (Return true)]
         (exec (Demo.two_threads
                ++ [ActStep 1%nat (Return true);
                    ActStep 1%nat (Raise (OtherError "send"))])
            init_system)).
Proof.
  destruct (crashed_thread_is_never_unregistered
              (Demo.two_threads
               ++ [ActStep 1%nat (Return true);
                   ActStep 1%nat (Raise (OtherError "send"))])
              1%nat (OtherError "send") eq_refl) as [Hin Hstay].
  split; [exact Hin|].
  exact (Hstay [ActStopAll; ActStep 1%nat (Return true)]).
Defined.

(** ** Shutting down *)




Lemma is_rx_thread_stop t s u :
  is_rx_thread (stop t s) u = is_rx_thread s u.
Proof.
  unfold is_rx_thread. rewrite lookup_stop.
  destruct (objects s !! u) as [o|]; [|done]. simpl.
  by destruct (bool_decide (u = t)).
Qed.

Lemma client_stops_stop t s :
  client_stops (stop t s)
  = (client_stops s + if is_rx_thread s t then 1 else 0)%nat.
Proof.
  unfold stop, is_rx_thread. destruct (objects s !! t) as [o|]; simpl.
  - destruct (th_is_rx o); lia.
  - lia.
Qed.

Lemma client_stops_foldl_stop l s :
  client_stops (foldl (λ acc th, stop th acc) s l)
  = (client_stops s
     + length (filter (λ u, is_rx_thread s u = true) l))%nat.
Proof.
  revert s. induction l as [|t l IH]; intros s; cbn [foldl]; [simpl; lia|].
  rewrite IH, client_stops_stop.
  rewrite (list_filter_iff (λ u, is_rx_thread (stop t s) u = true)
             (λ u, is_rx_thread s u = true))
    by (intros u; by rewrite is_rx_thread_stop).
  destruct (is_rx_thread s t) eqn:Hrx.
  - rewrite filter_cons_True by done. simpl. lia.
  - rewrite filter_cons_False by (rewrite Hrx; discriminate). lia.
Qed.

(** X14.  [stop_all] stops the APRS-IS client once for every registered RX
    thread, through the [stop] that [APRSDRXThread] overrides; the [stop]
    of any other thread leaves the client alone. *)
Theorem stop_all_stops_the_client_per_rx_thread (s : system) :
  client_stops (APRSDThreadList.stop_all s)
  = (client_stops s
     + length (filter (λ u, is_rx_thread s u = true) (threads_list s)))%nat
  ∧ ∀ t, is_rx_thread s t = false →
         client_stops (stop t s) = client_stops s.
Proof.
  split; [apply client_stops_foldl_stop|].
  intros t Hrx. rewrite client_stops_stop, Hrx. lia.
Qed.

Lemma list_remove_absent x l :
  x ∉ l → APRSDThreadList.list_remove x l = None.
Proof.
  induction l as [|y l IH]; [done|].
  intros Hnin. apply not_elem_of_cons in Hnin as [Hne Hnin]. simpl.
  rewrite bool_decide_eq_false_2 by congruence. by rewrite IH.
Qed.

Lemma list_remove_first x l1 l2 :
  x ∉ l1 → APRSDThreadList.list_remove x (l1 ++ x :: l2) = Some (l1 ++ l2).
Proof.
  induction l1 as [|y l1 IH]; intros Hnin.
  - simpl. by rewrite bool_decide_eq_true_2.
  - apply not_elem_of_cons in Hnin as [Hne Hnin]. simpl.
    rewrite bool_decide_eq_false_2 by congruence. by rewrite IH.
Qed.

(** X15.  [remove] fails with [ValueError] for a thread that is not registered;
    registering such a thread and removing it again gives back the
    registry as it was; and since [add] does not look for duplicates and
    [remove] takes out one occurrence only, a thread added twice is still
    registered after one [remove]. *)
Theorem remove_undoes_add (s : system) (t : tid) :
  t ∉ threads_list s →
  APRSDThreadList.remove t s = None
  ∧ APRSDThreadList.remove t (APRSDThreadList.add t s) = Some s
  ∧ APRSDThreadList.remove t (APRSDThreadList.add t (APRSDThreadList.add t s))
    = Some (APRSDThreadList.add t s).
Proof.
  intros Hnin. split; [|split].
  - unfold APRSDThreadList.remove. by rewrite list_remove_absent.
  - unfold APRSDThreadList.remove, APRSDThreadList.add. simpl.
    rewrite list_remove_first by done. rewrite app_nil_r. by destruct s.
  - unfold APRSDThreadList.remove, APRSDThreadList.add. simpl.
    rewrite <- app_assoc. simpl.
    by rewrite (list_remove_first t (threads_list s) [t]) by done.
Qed.

Lemma remove_undoes_add_witness :
  APRSDThreadList.remove 5%nat (exec Demo.two_threads init_system) = None
  ∧ APRSDThreadList.remove 5%nat
      (APRSDThreadList.add 5%nat (exec Demo.two_threads init_system))
    = Some (exec Demo.two_threads init_system)
  ∧ APRSDThreadList.remove 5%nat
      (APRSDThreadList.add 5%nat
         (APRSDThreadList.add 5%nat (exec Demo.two_threads init_system)))
    = Some (APRSDThreadList.add 5%nat (exec Demo.two_threads init_system)).
Proof.
  apply (remove_undoes_add (exec Demo.two_threads init_system) 5%nat).
  change (threads_list (exec Demo.two_threads init_system))
    with [0%nat; 1%nat].
  intros H. rewrite list_elem_of_In in H. simpl in H.
  intuition discriminate.
Defined.

(** ** The keep-alive thread *)

Import KeepAliveThread.

Lemma ka_loop_step env st :
  ∃ l ct,
    KeepAliveThread.loop env st
    = (true, KaState (S (cntr st)) ct (ka_events st ++ l))
    ∧ sleeps l = [10]
    ∧ keepalive_lines l
      = map env_keepalive (if (cntr st mod 6 =? 0)%nat then [env] else [])
    ∧ (check_times l = [] ∧ ct = checker_time st
       ∨ check_times l = [env_now env] ∧ ct = env_now env
         ∧ one_hour < env_now env - checker_time st
         ∧ (cntr st mod 6 =? 0)%nat = true).
Proof.
  unfold KeepAliveThread.loop, ka_emit.
  destruct (cntr st mod 6 =? 0)%nat eqn:Hsix.
  - destruct (env_traced_memory env) as [current peak].
    cbn [checker_time cntr ka_events].
    destruct (one_hour <? env_now env - checker_time st)%Z eqn:Hhour.
    + apply Z.ltb_lt in Hhour.
      destruct (env_check_version env) as [level msg].
      destruct (negb (level =? 0)%Z); cbn [checker_time cntr ka_events];
        rewrite <- ?app_assoc; eexists _, _; (split; [reflexivity|]);
        simpl; repeat split; right; done.
    + cbn [checker_time cntr ka_events]. rewrite <- ?app_assoc.
      eexists _, _. split; [reflexivity|].
      simpl. repeat split. by left.
  - cbn [checker_time cntr ka_events].
    eexists _, _. split; [reflexivity|]. simpl. repeat split. by left.
Qed.

Lemma ka_lines_app l1 l2 :
  keepalive_lines (l1 ++ l2) = keepalive_lines l1 ++ keepalive_lines l2.
Proof. apply omap_app. Qed.

Lemma ka_sleeps_app l1 l2 : sleeps (l1 ++ l2) = sleeps l1 ++ sleeps l2.
Proof. apply omap_app. Qed.

Lemma ka_checks_app l1 l2 :
  check_times (l1 ++ l2) = check_times l1 ++ check_times l2.
Proof. apply omap_app. Qed.

Lemma ka_loops_run envs st :
  ∃ l, loops envs st
       = KaState (cntr st + length envs) (checker_time (loops envs st))
           (ka_events st ++ l)
    ∧ sleeps l = replicate (length envs) 10
    ∧ keepalive_lines l = map env_keepalive (every_sixth (cntr st) envs)
    ∧ hour_apart (checker_time st) (check_times l)
    ∧ checker_time (loops envs st)
      = default (checker_time st) (last (check_times l))
    ∧ (length (check_times l) ≤ length (keepalive_lines l))%nat.
Proof.
  revert st. induction envs as [|env envs IH]; intros st.
  - exists []. simpl. rewrite app_nil_r, Nat.add_0_r.
    by destruct st.
  - cbn [loops].
    destruct (ka_loop_step env st) as (l1 & ct & -> & Hs1 & Hk1 & Hc1).
    destruct (IH (KaState (S (cntr st)) ct (ka_events st ++ l1)))
      as (l2 & Hrun & Hs2 & Hk2 & Hc2 & Hct & Hlen).
    cbn [cntr checker_time ka_events] in *.
    exists (l1 ++ l2). split.
    { rewrite Hrun at 1. cbn [length]. rewrite app_assoc. f_equal. lia. }
    rewrite ka_sleeps_app, ka_lines_app, ka_checks_app, Hs1, Hs2.
    split; [done|]. split.
    { cbn [every_sixth]. by rewrite map_app, Hk1, Hk2. }
    rewrite Hct, !length_app, Hk1.
    destruct Hc1 as [[-> ->]|(-> & -> & Hhour & Hsix)].
    + split; [done|]. split; [done|]. simpl. lia.
    + rewrite Hsix. cbn [map length app hour_apart].
      split; [done|]. split; [|lia].
      by destruct (check_times l2) as [|t ts] using rev_ind;
        [|rewrite app_comm_cons, !last_snoc].
Qed.

Lemma sixth_step (c : nat) :
  ((c + 6) / 6 = (c + 5) / 6 + if (c mod 6 =? 0) then 1 else 0)%nat.
Proof.
  pose proof (Nat.div_mod_eq c 6) as Hc.
  pose proof (Nat.mod_upper_bound c 6) as Hr.
  set (q := (c / 6)%nat) in *. set (r := (c mod 6)%nat) in *.
  assert (H6 : ((c + 6) / 6 = q + 1)%nat).
  { symmetry. apply (Nat.div_unique _ _ _ r); lia. }
  rewrite H6. destruct (r =? 0)%nat eqn:Hz.
  - apply Nat.eqb_eq in Hz.
    assert (H5 : ((c + 5) / 6 = q)%nat).
    { symmetry. apply (Nat.div_unique _ _ _ 5); lia. }
    lia.
  - apply Nat.eqb_neq in Hz.
    assert (H5 : ((c + 5) / 6 = q + 1)%nat).
    { symmetry. apply (Nat.div_unique _ _ _ (r - 1)); lia. }
    lia.
Qed.

Lemma length_every_sixth c envs :
  (length (every_sixth c envs) + (c + 5) / 6
   = (c + length envs + 5) / 6)%nat.
Proof.
  revert c. induction envs as [|env envs IH]; intros c.
  - cbn [every_sixth length]. by rewrite Nat.add_0_r.
  - cbn [every_sixth]. rewrite length_app. cbn [length].
    specialize (IH (S c)).
    replace (S c + 5)%nat with (c + 6)%nat in IH by lia.
    rewrite sixth_step in IH.
    replace (c + S (length envs) + 5)%nat
      with (S c + length envs + 5)%nat by lia.
    rewrite <- IH. destruct (c mod 6 =? 0)%nat; cbn [length]; lia.
Qed.

Lemma ka_loop_step_reports env st :
  ∃ l ct,
    KeepAliveThread.loop env st
    = (true, KaState (S (cntr st)) ct (ka_events st ++ l))
    ∧ reports l = if (cntr st mod 6 =? 0)%nat then report_of env else [].
Proof.
  unfold KeepAliveThread.loop, ka_emit, report_of.
  destruct (cntr st mod 6 =? 0)%nat eqn:Hsix.
  - destruct (env_traced_memory env) as [current peak].
    cbn [checker_time cntr ka_events fst snd].
    destruct (one_hour <? env_now env - checker_time st)%Z.
    + destruct (env_check_version env) as [level msg].
      destruct (negb (level =? 0)%Z); cbn [checker_time cntr ka_events];
        rewrite <- ?app_assoc; eexists _, _; (split; [reflexivity|]);
        reflexivity.
    + cbn [checker_time cntr ka_events]. rewrite <- ?app_assoc.
      eexists _, _. split; reflexivity.
  - cbn [checker_time cntr ka_events].
    eexists _, _. split; reflexivity.
Qed.

Lemma ka_loops_reports envs st :
  ∃ l, ka_events (loops envs st) = ka_events st ++ l
    ∧ reports l = concat (map report_of (every_sixth (cntr st) envs)).
Proof.
  revert st. induction envs as [|env envs IH]; intros st.
  - exists []. by rewrite app_nil_r.
  - cbn [loops].
    destruct (ka_loop_step_reports env st) as (l1 & ct & -> & Hr1).
    destruct (IH (KaState (S (cntr st)) ct (ka_events st ++ l1)))
      as (l2 & Hev & Hr2).
    cbn [cntr ka_events] in *.
    exists (l1 ++ l2). split; [by rewrite Hev, app_assoc|].
    unfold reports in *. rewrite filter_app, Hr1, Hr2.
    cbn [every_sixth]. rewrite map_app, concat_app.
    destruct (cntr st mod 6 =? 0)%nat; simpl; by rewrite ?app_nil_r.
Qed.

(** X16.  The keep-alive thread always returns true and sleeps ten seconds
    in every iteration.  On the iterations whose counter is a multiple of
    six, and on no other, it sets the memory statistics to the traced
    memory and its peak and then logs its keep-alive line; so a new thread
    has logged (n + 5) / 6 lines after n iterations. *)
Theorem keepalive_line_every_sixth_iteration
    (envs : list ka_env) (st : ka_state) :
  let st' := loops envs st in
  cntr st' = (cntr st + length envs)%nat
  ∧ sleeps (ka_new_events st st') = replicate (length envs) 10
  ∧ reports (ka_new_events st st')
    = concat (map report_of (every_sixth (cntr st) envs))
  ∧ keepalive_lines (ka_new_events st st')
    = map env_keepalive (every_sixth (cntr st) envs)
  ∧ (cntr st = 0%nat →
     length (keepalive_lines (ka_new_events st st'))
     = ((length envs + 5) / 6)%nat).
Proof.
  cbv zeta.
  destruct (ka_loops_run envs st) as (l & Hrun & Hs & Hk & _).
  destruct (ka_loops_reports envs st) as (l' & Hev & Hr).
  assert (Hnew : ka_new_events st (loops envs st) = l).
  { unfold ka_new_events. rewrite Hrun. cbn [ka_events].
    by rewrite drop_app_length. }
  assert (Hnew' : ka_new_events st (loops envs st) = l').
  { unfold ka_new_events. rewrite Hev. by rewrite drop_app_length. }
  split; [by rewrite Hrun|]. split; [by rewrite Hnew|].
  split; [by rewrite Hnew'|]. rewrite Hnew. split; [done|].
  intros Hzero. rewrite Hk, length_map.
  pose proof (length_every_sixth (cntr st) envs) as Hlen.
  rewrite Hzero in *. change ((0 + 5) / 6)%nat with 0%nat in Hlen.
  rewrite Nat.add_0_r in Hlen. by rewrite Hlen.
Qed.

Lemma keepalive_line_every_sixth_iteration_witness :
  let envs := map Runs.env_at [0; 10; 20; 30; 40; 50; 60; 70] in
  let st' := loops envs Runs.fresh_keepalive in
  cntr st' = 8%nat
  ∧ reports (ka_new_events Runs.fresh_keepalive st')
    = [KaSetMemory 1024; KaSetMemoryPeak 2048; KaLog DEBUG "Uptime";
       KaSetMemory 1024; KaSetMemoryPeak 2048; KaLog DEBUG "Uptime"]
  ∧ length (keepalive_lines (ka_new_events Runs.fresh_keepalive st'))
    = ((length envs + 5) / 6)%nat.
Proof.
  cbv zeta.
  destruct (keepalive_line_every_sixth_iteration
              (map Runs.env_at [0; 10; 20; 30; 40; 50; 60; 70])
              Runs.fresh_keepalive) as (Hc & _ & Hr & _ & Hn).
  split; [exact Hc|]. split; [exact Hr | exact (Hn eq_refl)].
Defined.

(** X17.  [utils._check_version()] is called at most once an hour: each call
    comes more than an hour after the one before it (the first more than
    an hour after the [checker_time] the thread started with), only on an
    iteration that logs the keep-alive line, and [checker_time] is the
    time of the latest call. *)
Theorem version_check_at_most_hourly
    (envs : list ka_env) (st : ka_state) :
  let st' := loops envs st in
  hour_apart (checker_time st) (check_times (ka_new_events st st'))
  ∧ checker_time st'
    = default (checker_time st) (last (check_times (ka_new_events st st')))
  ∧ (length (check_times (ka_new_events st st'))
     ≤ length (keepalive_lines (ka_new_events st st')))%nat.
Proof.
  cbv zeta.
  destruct (ka_loops_run envs st) as (l & Hrun & _ & _ & Hc & Hct & Hlen).
  assert (Hnew : ka_new_events st (loops envs st) = l).
  { unfold ka_new_events. rewrite Hrun. cbn [ka_events].
    by rewrite drop_app_length. }
  by rewrite Hnew.
Qed.

Example keepalive_over_two_hours :
  let envs := map Runs.env_at
                [10; 20; 30; 40; 50; 60; 3600000070; 80; 90; 100; 110; 120;
                 3600000130; 7200000200] in
  let st' := loops envs Runs.fresh_keepalive in
  check_times (ka_events st') = [3600000070]
  ∧ checker_time st' = 3600000070
  ∧ length (keepalive_lines (ka_events st')) = 3%nat
  ∧ cntr st' = 14%nat.
Proof. repeat split. Qed.

(** ** What no worker loop does *)

(** X18.  No [loop] of the three workers ever returns false: the RX and the TX
    loop return true or raise, the keep-alive loop returns true.  So the
    [self.stop()] in [run] is never reached through them, and a worker
    ends only by a [stop] from outside or by an exception. *)
Theorem worker_loops_never_return_false
    (cfg : config) (pm : packet → result (list reply)) (c : consumer_run)
    (send : message → M unit) (got : option message) (w : world)
    (env : ka_env) (st : ka_state) :
  fst (APRSDRXThread.loop cfg pm c w) ≠ Return false
  ∧ fst (APRSDTXThread.loop send got w) ≠ Return false
  ∧ fst (KeepAliveThread.loop env st) = true.
Proof.
  split; [|split].
  - rewrite loop_run. cbv zeta.
    destruct (ending c) as [e|]; [destruct (is_ConnectionDrop e)|]; done.
  - cbv beta iota delta
      [APRSDTXThread.loop APRSDTXThread.tx_get APRSDTXThread.msg_send
       bind ret raise try_except effect].
    destruct got as [msg|]; [|done].
    destruct (send msg _) as [[[]|e] w']; [done|].
    by destruct (is_QueueEmpty e).
  - reflexivity.
Qed.
